(** * FSPermissionRemapper: the permission overlay of [main.py]

    A shallow embedding of [PermissionRemappedFilesystem] (src/main.py): the
    permission store, the operations that go through it ([getattr], [chown],
    [chmod], [readdir], [readlink], [__init__], [destroy]) and the
    [os] / [os.path] calls they make, followed by the properties checked
    against the code. *)

From Stdlib Require Import ZArith Ascii String DecimalString.
From stdpp Require Import gmap strings list fin_maps.

Local Open Scope Z_scope.

(** ** Python strings and [posixpath]

    Paths are Python [str]; here strings of characters. The functions below
    follow CPython's [posixpath] module, which [main.py] calls as
    [os.path]. *)

Module PosixPath.

Definition sep : ascii := "/"%char.
Definition curdir : string := ".".
Definition pardir : string := "..".

(** [s.startswith('/')] *)
Definition startswith_sep (s : string) : bool :=
  match s with
  | String c _ => Ascii.eqb c sep
  | EmptyString => false
  end.

(** [s.endswith('/')] *)
Fixpoint endswith_sep (s : string) : bool :=
  match s with
  | EmptyString => false
  | String c EmptyString => Ascii.eqb c sep
  | String _ s' => endswith_sep s'
  end.

(** [s[1:]] *)
Definition tail (s : string) : string :=
  match s with
  | String _ s' => s'
  | EmptyString => EmptyString
  end.

(** [s.lstrip('/')] *)
Fixpoint lstrip_sep (s : string) : string :=
  match s with
  | String c s' => if Ascii.eqb c sep then lstrip_sep s' else s
  | EmptyString => EmptyString
  end.

(** [s.split('/')]: never empty, [''.split('/') == ['']]. *)
Fixpoint split_sep (s : string) : list string :=
  match s with
  | EmptyString => [EmptyString]
  | String c s' =>
      if Ascii.eqb c sep then EmptyString :: split_sep s'
      else match split_sep s' with
           | h :: t => String c h :: t
           | [] => [String c EmptyString]
           end
  end.

(** ['/'.join(l)] *)
Definition sep_join (l : list string) : string := String.concat "/" l.

(** [posixpath.join(a, b)] with one component [b]. *)
Definition join (a b : string) : string :=
  if startswith_sep b then b
  else if bool_decide (a = EmptyString) || endswith_sep a then a +:+ b
  else a +:+ "/" +:+ b.

(** The number of leading slashes [normpath] keeps: POSIX allows one or
    two, three or more count as one. *)
Definition initial_slashes (path : string) : nat :=
  if startswith_sep path then
    if startswith_sep (tail path) && negb (startswith_sep (tail (tail path)))
    then 2%nat else 1%nat
  else 0%nat.

(** The loop of [normpath] over the components. [new_comps] is kept with
    its last element first, so [append] is a cons and [pop] a tail. *)
Fixpoint normpath_loop (slashes : nat) (new_comps comps : list string)
  : list string :=
  match comps with
  | [] => new_comps
  | comp :: rest =>
      if bool_decide (comp = EmptyString) || bool_decide (comp = curdir)
      then normpath_loop slashes new_comps rest
      else if negb (bool_decide (comp = pardir))
              || (bool_decide (slashes = 0%nat) && bool_decide (new_comps = []))
              || bool_decide (head new_comps = Some pardir)
      then normpath_loop slashes (comp :: new_comps) rest
      else normpath_loop slashes (List.tl new_comps) rest
  end.

Fixpoint slashes_string (n : nat) : string :=
  match n with
  | O => EmptyString
  | S n' => String sep (slashes_string n')
  end.

(** [posixpath.normpath(path)] *)
Definition normpath (path : string) : string :=
  if bool_decide (path = EmptyString) then curdir
  else
    let n := initial_slashes path in
    let comps := rev (normpath_loop n [] (split_sep path)) in
    let path' := slashes_string n +:+ sep_join comps in
    if bool_decide (path' = EmptyString) then curdir else path'.

(** [posixpath.abspath(path)], with [cwd] the value of [os.getcwd()]. *)
Definition abspath (cwd path : string) : string :=
  normpath (if startswith_sep path then path else join cwd path).

(** [len(commonprefix([l1, l2]))] for two lists of components. *)
Fixpoint commonprefix_len (l1 l2 : list string) : nat :=
  match l1, l2 with
  | x :: l1', y :: l2' =>
      if bool_decide (x = y) then S (commonprefix_len l1' l2') else 0%nat
  | _, _ => 0%nat
  end.

(** [tail.split('/') if tail else []] *)
Definition tail_list (t : string) : list string :=
  if bool_decide (t = EmptyString) then [] else split_sep t.

(** [posixpath.relpath(path, start)] for a non-empty [path] (an empty
    one raises [ValueError], which the caller below handles). *)
Definition relpath (cwd path start : string) : string :=
  let start_list := tail_list (lstrip_sep (abspath cwd start)) in
  let path_list := tail_list (lstrip_sep (abspath cwd path)) in
  let i := commonprefix_len start_list path_list in
  let rel_list :=
    replicate (length start_list - i) pardir ++ drop i path_list in
  match rel_list with
  | [] => curdir
  | _ => sep_join rel_list
  end.

End PosixPath.

Import PosixPath.

(** ** Exceptions and outcomes

    The Python exceptions the modelled code can raise; every one of them
    propagates to the caller (the class catches nothing). *)

Inductive exn : Set :=
| IndexError            (* [path[0]] on an empty string *)
| KeyError              (* [d[k]] on a missing key *)
| ValueError            (* [list.remove(x)]: x not in list *)
| FileNotFoundError     (* ENOENT *)
| NotADirectoryError    (* ENOTDIR *)
| IsADirectoryError     (* EISDIR *)
| InvalidArgument       (* OSError EINVAL: [readlink] on a non-link *)
| TooManyLinks          (* OSError ELOOP *)
| JSONDecodeError.      (* [json.load] on a document that does not parse *)

Inductive outcome (A : Type) : Type :=
| Ret (a : A)
| Raise (e : exn).
Arguments Ret {A} a.
Arguments Raise {A} e.

#[global] Instance exn_eq_dec : EqDecision exn.
Proof. solve_decision. Defined.

(** ** The real filesystem

    What [os.lstat] returns, with the fields [getattr] copies. Times are
    passed through uninterpreted. *)

Record stat_result : Set := mk_stat {
  st_mode : Z; st_uid : Z; st_gid : Z;
  st_nlink : Z; st_size : Z; st_blocks : Z; st_blksize : Z;
  st_ino : Z; st_dev : Z;
  st_ctime : Z; st_mtime : Z; st_atime : Z
}.

Inductive node : Set :=
| File (st : stat_result) (data : string)
| Dir (st : stat_result)
| Symlink (st : stat_result) (target : string).

Definition node_stat (n : node) : stat_result :=
  match n with
  | File st _ | Dir st | Symlink st _ => st
  end.

(** The directory tree is a table from absolute names, as lists of
    components from the root, to nodes; [cwd] is [os.getcwd()].
    Simplifications of the kernel's name resolution: a name reaches a node
    through its components as written ([.] and empty components dropped,
    [..] taken lexically); a symbolic link in the last position is followed
    by the calls that follow links, links in inner positions are not. *)

Record world : Type := mk_world {
  disk : gmap (list string) node;
  cwd : string
}.

(** Components are pushed on a stack, last one first. *)
Fixpoint walk (stack comps : list string) : list string :=
  match comps with
  | [] => stack
  | c :: rest =>
      if bool_decide (c = EmptyString) || bool_decide (c = curdir)
      then walk stack rest
      else if bool_decide (c = pardir) then walk (List.tl stack) rest
      else walk (c :: stack) rest
  end.

(** The name the path [p] leads to from the directory named [dir]. *)
Definition resolve_from (dir : list string) (p : string) : list string :=
  rev (walk (if startswith_sep p then [] else rev dir) (split_sep p)).

(** The name of [p] for a process whose current directory is [cwd w]. *)
Definition key_of (w : world) (p : string) : list string :=
  resolve_from (resolve_from [] (cwd w)) p.

(** Where the target [t] of the link named [k] leads. *)
Definition target_key (k : list string) (t : string) : list string :=
  resolve_from (removelast k) t.

Definition MAXSYMLINKS : nat := 40.

Fixpoint follow (d : gmap (list string) node) (fuel : nat) (k : list string)
  : outcome (list string) :=
  match d !! k with
  | Some (Symlink _ t) =>
      match fuel with
      | O => Raise TooManyLinks
      | S fuel' => follow d fuel' (target_key k t)
      end
  | _ => Ret k
  end.

(** The node a path names, not following a final link ([lstat]) and
    following it ([stat]). The empty path names nothing. *)
Definition lnode (w : world) (p : string) : outcome (list string * node) :=
  if bool_decide (p = EmptyString) then Raise FileNotFoundError
  else match disk w !! key_of w p with
       | Some n => Ret (key_of w p, n)
       | None => Raise FileNotFoundError
       end.

Definition snode (w : world) (p : string) : outcome (list string * option node) :=
  if bool_decide (p = EmptyString) then Raise FileNotFoundError
  else match follow (disk w) MAXSYMLINKS (key_of w p) with
       | Ret k => Ret (k, disk w !! k)
       | Raise e => Raise e
       end.

(** [os.lstat(p)] *)
Definition lstat (w : world) (p : string) : outcome stat_result :=
  match lnode w p with
  | Ret (_, n) => Ret (node_stat n)
  | Raise e => Raise e
  end.

(** [os.path.exists(p)]: false on any failure of [stat]. *)
Definition path_exists (w : world) (p : string) : bool :=
  match snode w p with
  | Ret (_, Some _) => true
  | _ => false
  end.

(** [os.path.isdir(p)] *)
Definition path_isdir (w : world) (p : string) : bool :=
  match snode w p with
  | Ret (_, Some (Dir _)) => true
  | _ => false
  end.

(** The name [k'] has under the directory [k], if it is directly in it. *)
Fixpoint child_name (k k' : list string) : option string :=
  match k, k' with
  | [], [n] => Some n
  | c :: k1, c' :: k1' => if bool_decide (c = c') then child_name k1 k1' else None
  | _, _ => None
  end.

Definition children (d : gmap (list string) node) (k : list string) : list string :=
  omap (child_name k) (map_to_list d).*1.

(** [os.listdir(p)]: the names in the directory, in no particular order. *)
Definition listdir (w : world) (p : string) : outcome (list string) :=
  match snode w p with
  | Ret (k, Some (Dir _)) => Ret (children (disk w) k)
  | Ret (_, Some _) => Raise NotADirectoryError
  | Ret (_, None) => Raise FileNotFoundError
  | Raise e => Raise e
  end.

(** [os.readlink(p)] *)
Definition os_readlink (w : world) (p : string) : outcome string :=
  match lnode w p with
  | Ret (_, Symlink _ t) => Ret t
  | Ret _ => Raise InvalidArgument
  | Raise e => Raise e
  end.

(** [open(p).read()] *)
Definition read_text (w : world) (p : string) : outcome string :=
  match snode w p with
  | Ret (_, Some (File _ data)) => Ret data
  | Ret (_, Some (Dir _)) => Raise IsADirectoryError
  | Ret (_, Some (Symlink _ _)) => Raise TooManyLinks
  | Ret (_, None) => Raise FileNotFoundError
  | Raise e => Raise e
  end.

Definition set_disk (w : world) (d : gmap (list string) node) : world :=
  {| disk := d; cwd := cwd w |}.

(** [os.unlink(p)] *)
Definition os_unlink (w : world) (p : string) : outcome world :=
  match lnode w p with
  | Ret (_, Dir _) => Raise IsADirectoryError
  | Ret (k, _) => Ret (set_disk w (delete k (disk w)))
  | Raise e => Raise e
  end.

Section RealWrites.

(** What the kernel records in the inode of a file that is written
    ([None]: the file is created) is outside the program. *)
Variable stat_after_write : option stat_result -> string -> stat_result.

(** [with open(p, 'w') as f: f.write(data)]: truncates or creates the
    file; the directory that holds a new file must exist. *)
Definition write_text (w : world) (p data : string) : outcome world :=
  match snode w p with
  | Ret (k, Some (File st _)) =>
      Ret (set_disk w (<[k := File (stat_after_write (Some st) data) data]> (disk w)))
  | Ret (_, Some (Dir _)) => Raise IsADirectoryError
  | Ret (_, Some (Symlink _ _)) => Raise TooManyLinks
  | Ret (k, None) =>
      match k, disk w !! removelast k with
      | _ :: _, Some (Dir _) =>
          Ret (set_disk w (<[k := File (stat_after_write None data) data]> (disk w)))
      | _ :: _, Some _ => Raise NotADirectoryError
      | _, _ => Raise FileNotFoundError
      end
  | Raise e => Raise e
  end.

End RealWrites.


(** ** The permission store and the state of a mounted filesystem

    A record of the store is the dict [{'uid': _, 'gid': _, 'mode': _}];
    the store [self.permissions] is a dict from virtual paths to records
    (the order of its entries is not modelled). *)

Record perms : Set := mk_perms { uid : Z; gid : Z; mode : Z }.

#[global] Instance perms_eq_dec : EqDecision perms.
Proof. solve_decision. Defined.

Record state : Type := mk_state {
  real : world;                         (* the underlying filesystem *)
  src_path : string;                    (* [self.src_path] *)
  permissions : gmap string perms       (* [self.permissions] *)
}.

Definition set_real (s : state) (w : world) : state :=
  {| real := w; src_path := src_path s; permissions := permissions s |}.

Definition set_permissions (s : state) (m : gmap string perms) : state :=
  {| real := real s; src_path := src_path s; permissions := m |}.

(** A method runs on a state and returns or raises; the state it leaves
    is kept in both cases, as Python does not undo effects on a raise. *)
Definition M (A : Type) : Type := state -> outcome A * state.

Definition ret {A} (a : A) : M A := fun s => (Ret a, s).
Definition raise {A} (e : exn) : M A := fun s => (Raise e, s).
Definition bind {A B} (m : M A) (k : A -> M B) : M B :=
  fun s => match m s with
           | (Ret a, s') => k a s'
           | (Raise e, s') => (Raise e, s')
           end.

Notation "'let*' x ':=' m 'in' k" := (bind m (fun x => k))
  (at level 10, x name, m at level 100, k at level 200).
Notation "m ';;' k" := (bind m (fun _ => k))
  (at level 100, k at level 200, right associativity).

Definition gets {A} (f : state -> A) : M A := fun s => (Ret (f s), s).

(** A call that only reads the real filesystem. *)
Definition os_call {A} (f : world -> outcome A) : M A :=
  fun s => (f (real s), s).

(** A call that changes it, when it succeeds. *)
Definition os_effect (f : world -> outcome world) : M unit :=
  fun s => match f (real s) with
           | Ret w' => (Ret tt, set_real s w')
           | Raise e => (Raise e, s)
           end.

(** [path in self.permissions] *)
Definition has_permissions (path : string) : M bool :=
  gets (fun s => bool_decide (is_Some (permissions s !! path))).

(** [self.permissions[path] = r] *)
Definition store (path : string) (r : perms) : M unit :=
  fun s => (Ret tt, set_permissions s (<[path := r]> (permissions s))).

(** [self.permissions[path]] *)
Definition fetch (path : string) : M perms :=
  fun s => match permissions s !! path with
           | Some r => (Ret r, s)
           | None => (Raise KeyError, s)
           end.

(** [l.remove(x)]: drops the first [x], raises [ValueError] without one. *)
Fixpoint list_remove (x : string) (l : list string) : outcome (list string) :=
  match l with
  | [] => Raise ValueError
  | y :: l' =>
      if bool_decide (y = x) then Ret l'
      else match list_remove x l' with
           | Ret r => Ret (y :: r)
           | Raise e => Raise e
           end
  end.

Definition REMAPPER_PERM_FILE : string := ".fs_perm_remapper.json".

Section Remapper.

(** [json] is Python's library, taken as an interface: [json_load data]
    is the mapping [json.load] returns on a file holding [data], [None]
    when it raises; [json_dump m] is the text [json.dump] writes for [m].
    A document that parses to something else than a mapping from paths to
    records of three integers is outside the model. [print] calls are
    left out. *)
Variable json_load : string -> option (gmap string perms).
Variable json_dump : gmap string perms -> string.
Variable stat_after_write : option stat_result -> string -> stat_result.

(** [PermissionRemappedFilesystem(path)], lines 13-19. *)
Definition __init__ (w : world) (path : string) : outcome state :=
  if path_exists w (join path REMAPPER_PERM_FILE) then
    match read_text w (join path REMAPPER_PERM_FILE) with
    | Ret data =>
        match json_load data with
        | Some m => Ret {| real := w; src_path := path; permissions := m |}
        | None => Raise JSONDecodeError
        end
    | Raise e => Raise e
    end
  else Ret {| real := w; src_path := path; permissions := ∅ |}.

(** Lines 21-22; [path[0]] raises on the empty string. *)
Definition get_src_path (path : string) : M string :=
  match path with
  | EmptyString => raise IndexError
  | String c _ =>
      let* src := gets src_path in
      ret (join src (if Ascii.eqb c sep then tail path else path))
  end.

(** [os.lstat(self.get_src_path(path))], as lines 29, 44, 65 and 173
    have it. *)
Definition lstat_src (path : string) : M stat_result :=
  let* real_path := get_src_path path in
  os_call (fun w => lstat w real_path).

(** Lines 24-31. *)
Definition get_permissions (path : string) : M perms :=
  let* present := has_permissions path in
  (if negb present then
     let* stats := lstat_src path in
     store path {| uid := 0; gid := 0; mode := st_mode stats |}
   else ret tt);;
  fetch path.

(** Lines 33-41. The method is a generator: its body runs when the
    caller iterates, and everything that can raise comes before the first
    [yield]; the result is the list of the entries yielded. The unused
    file handle [fh] is left out, here and below. *)
Definition readdir (path : string) : M (list string) :=
  let* real_path := get_src_path path in
  let entries := ["."; ".."]%string in
  let* isdir := os_call (fun w => Ret (path_isdir w real_path)) in
  let* entries :=
    (if isdir : bool then
       let* names := os_call (fun w => listdir w real_path) in
       ret (entries ++ names)
     else ret entries) in
  let* entries :=
    (if bool_decide (path = "/"%string) then
       fun s => (list_remove REMAPPER_PERM_FILE entries, s)
     else ret entries) in
  ret entries.

(** Lines 43-61. *)
Definition getattr (path : string) : M stat_result :=
  let* stats := lstat_src path in
  let* perms := get_permissions path in
  ret {| st_mode := mode perms;
         st_uid := uid perms;
         st_gid := gid perms;
         st_nlink := st_nlink stats;
         st_size := st_size stats;
         st_blocks := st_blocks stats;
         st_blksize := st_blksize stats;
         st_ino := st_ino stats;
         st_dev := st_dev stats;
         st_ctime := st_ctime stats;
         st_mtime := st_mtime stats;
         st_atime := st_atime stats |}.

(** [self.permissions[path][field] = v] *)
Definition store_field (path : string) (upd : perms -> perms) : M unit :=
  let* r := fetch path in
  store path (upd r).

(** Lines 63-73. *)
Definition chown (path : string) (uid' gid' : Z) : M unit :=
  let* present := has_permissions path in
  if negb present then
    let* stats := lstat_src path in
    let mode' := st_mode stats in
    store path {| uid := uid'; gid := gid'; mode := mode' |}
  else
    store_field path (fun r => {| uid := uid'; gid := gid r; mode := mode r |});;
    store_field path (fun r => {| uid := uid r; gid := gid'; mode := mode r |}).

(** Lines 75-83. *)
Definition chmod (path : string) (mode' : Z) : M unit :=
  let* present := has_permissions path in
  if negb present then
    store path {| uid := 0; gid := 0; mode := mode' |}
  else
    store_field path (fun r => {| uid := uid r; gid := gid r; mode := mode' |}).

(** Lines 89-94. *)
Definition readlink (path : string) : M string :=
  let* real_path := get_src_path path in
  let* target := os_call (fun w => os_readlink w real_path) in
  match target with
  | EmptyString => raise IndexError
  | String c _ =>
      if Ascii.eqb c sep then
        let* src := gets src_path in
        let* dir := gets (fun s => cwd (real s)) in
        ret (relpath dir target src)
      else ret target
  end.

(** Lines 122-123, one of the operations passed to the real filesystem
    as they are. *)
Definition unlink (path : string) : M unit :=
  let* real_path := get_src_path path in
  os_effect (fun w => os_unlink w real_path).

(** The loop of [destroy], lines 172-176, over the items of the store. *)
Fixpoint destroy_loop (items : list (string * perms))
    (final_perms : gmap string perms) : M (gmap string perms) :=
  match items with
  | [] => ret final_perms
  | (path, perms) :: rest =>
      let* stats := lstat_src path in
      if (st_mode stats =? mode perms) && (uid perms =? 0) && (gid perms =? 0)
      then destroy_loop rest final_perms
      else destroy_loop rest (<[path := perms]> final_perms)
  end.

(** Lines 170-179. *)
Definition destroy : M unit :=
  let* items := gets (fun s => map_to_list (permissions s)) in
  let* final_perms := destroy_loop items ∅ in
  let* src := gets src_path in
  os_effect (fun w => write_text stat_after_write w
                        (join src REMAPPER_PERM_FILE) (json_dump final_perms)).

End Remapper.


(** ** Notions the properties are stated with *)

(** The [os.path.join(self.src_path, self.REMAPPER_PERM_FILE)] of lines
    15, 16 and 177. *)
Definition sidecar_path (src : string) : string := join src REMAPPER_PERM_FILE.

(** The bundle [getattr] returns for the record [r] and the real [stats]. *)
Definition attrs (r : perms) (stats : stat_result) : stat_result :=
  {| st_mode := mode r; st_uid := uid r; st_gid := gid r;
     st_nlink := st_nlink stats; st_size := st_size stats;
     st_blocks := st_blocks stats; st_blksize := st_blksize stats;
     st_ino := st_ino stats; st_dev := st_dev stats;
     st_ctime := st_ctime stats; st_mtime := st_mtime stats;
     st_atime := st_atime stats |}.

(** A trivial default: owner 0/0 and the mode the real file has now. *)
Definition trivial_default (s : state) (path : string) (r : perms) : bool :=
  match (lstat_src path s).1 with
  | Ret stats => bool_decide (uid r = 0 /\ gid r = 0 /\ mode r = st_mode stats)
  | Raise _ => false
  end.

(** The mapping the specification persists: the store without its trivial
    defaults. *)
Definition pruned (s : state) : gmap string perms :=
  filter (fun kv => trivial_default s kv.1 kv.2 = false) (permissions s).

(** One turn of the loop of [destroy] on the mapping it builds. *)
Definition keep (s : state) (acc : gmap string perms) (kv : string * perms)
  : gmap string perms :=
  if trivial_default s kv.1 kv.2 then acc else <[kv.1 := kv.2]> acc.

(** Every record of the store names a file that is there. *)
Definition records_resolve (s : state) : Prop :=
  forall path r, permissions s !! path = Some r ->
    exists stats, (lstat_src path s).1 = Ret stats.

(** That condition, and that no record is a trivial default, as tests
    that run on a given state. *)
Definition records_resolve_b (s : state) : bool :=
  forallb (fun kv => match (lstat_src kv.1 s).1 with
                     | Ret _ => true
                     | Raise _ => false
                     end)
          (map_to_list (permissions s)).

Definition none_trivial_b (s : state) : bool :=
  forallb (fun kv => negb (trivial_default s kv.1 kv.2))
          (map_to_list (permissions s)).

(** What [open(..., 'w')] at line 177 needs: the sidecar is a regular
    file, or it is not there and the source root is a directory. *)
Definition source_dir (w : world) (src : string) : Prop :=
  exists k st, lnode w src = Ret (k, Dir st).

Definition sidecar_writable (w : world) (src : string) : Prop :=
  (exists old, read_text w (sidecar_path src) = Ret old) \/
  (source_dir w src /\ lnode w (sidecar_path src) = Raise FileNotFoundError).

(** Every record of the store is a trivial default. *)
Definition all_trivial (s : state) : Prop :=
  forall path r, permissions s !! path = Some r -> trivial_default s path r = true.

(** What [readdir] lists under the real path [rp], lines 36-37. *)
Definition real_entries (w : world) (rp : string) : outcome (list string) :=
  if path_isdir w rp then listdir w rp else Ret [].

(** Requests that read: a session of them leaves the real files alone. *)
Inductive request : Set :=
| Getattr (path : string)
| Readdir (path : string)
| Readlink (path : string).

Definition serve (q : request) (s : state) : state :=
  match q with
  | Getattr path => (getattr path s).2
  | Readdir path => (readdir path s).2
  | Readlink path => (readlink path s).2
  end.

(** The bridge answers a request that raises with an error code and goes
    on serving. *)
Definition session (qs : list request) (s : state) : state :=
  foldl (fun s q => serve q s) s qs.

(** A string without a separator is its own single component; a proper
    component is one that name resolution keeps. *)
Definition plain (c : string) : Prop := split_sep c = [c].

Definition proper (c : string) : Prop :=
  c <> EmptyString /\ c <> curdir /\ c <> pardir /\ plain c.

(** The components [relpath] compares, and the list it joins. *)
Definition components (p : string) : list string := tail_list (lstrip_sep p).

Definition rel_list (start_list path_list : list string) : list string :=
  let i := commonprefix_len start_list path_list in
  replicate (length start_list - i) pardir ++ drop i path_list.

Definition rel_string (l : list string) : string :=
  match l with
  | [] => curdir
  | _ => sep_join l
  end.

(** ** A text format for the examples

    One codec that meets the interface [json_load] / [json_dump]: the
    writer prints the store the way [json.dump] does with its default
    separators, the reader accepts that layout. It instantiates the
    interface in the concrete scenarios; the properties themselves hold
    for every codec. *)

Module JsonText.

Definition dquote : ascii := "034"%char.
Definition backslash : ascii := "092"%char.

Fixpoint escape (s : string) : string :=
  match s with
  | EmptyString => EmptyString
  | String c s' =>
      if Ascii.eqb c dquote || Ascii.eqb c backslash
      then String backslash (String c (escape s'))
      else String c (escape s')
  end.

Definition quote (s : string) : string :=
  String dquote (escape s +:+ String dquote EmptyString).

Definition dump_int (z : Z) : string := NilZero.string_of_int (Z.to_int z).

Definition dump_record (r : perms) : string :=
  "{" +:+ quote "uid" +:+ ": " +:+ dump_int (uid r) +:+ ", "
      +:+ quote "gid" +:+ ": " +:+ dump_int (gid r) +:+ ", "
      +:+ quote "mode" +:+ ": " +:+ dump_int (mode r) +:+ "}".

Definition dump_item (kv : string * perms) : string :=
  quote kv.1 +:+ ": " +:+ dump_record kv.2.

Definition dumps (m : gmap string perms) : string :=
  "{" +:+ String.concat ", " (dump_item <$> map_to_list m) +:+ "}".

Fixpoint expect (pre s : string) : option string :=
  match pre, s with
  | EmptyString, _ => Some s
  | String a pre', String b s' => if Ascii.eqb a b then expect pre' s' else None
  | _, _ => None
  end.

Fixpoint read_string_body (s : string) : option (string * string) :=
  match s with
  | EmptyString => None
  | String c s' =>
      if Ascii.eqb c dquote then Some (EmptyString, s')
      else if Ascii.eqb c backslash then
        match s' with
        | String d s'' =>
            match read_string_body s'' with
            | Some (k, rest) => Some (String d k, rest)
            | None => None
            end
        | EmptyString => None
        end
      else
        match read_string_body s' with
        | Some (k, rest) => Some (String c k, rest)
        | None => None
        end
  end.

Definition read_string (s : string) : option (string * string) :=
  s' ← expect (String dquote EmptyString) s; read_string_body s'.

Definition is_int_char (c : ascii) : bool :=
  Ascii.eqb c "-" || (Nat.leb 48 (nat_of_ascii c) && Nat.leb (nat_of_ascii c) 57).

Fixpoint span_int (s : string) : string * string :=
  match s with
  | String c s' =>
      if is_int_char c then let (a, b) := span_int s' in (String c a, b)
      else (EmptyString, s)
  | EmptyString => (EmptyString, EmptyString)
  end.

Definition read_int (s : string) : option (Z * string) :=
  let (a, rest) := span_int s in
  if bool_decide (a = EmptyString) then None
  else d ← NilZero.int_of_string a; Some (Z.of_int d, rest).

Definition read_record (s : string) : option (perms * string) :=
  s ← expect ("{" +:+ quote "uid" +:+ ": ") s;
  ur ← read_int s;
  s ← expect (", " +:+ quote "gid" +:+ ": ") ur.2;
  gr ← read_int s;
  s ← expect (", " +:+ quote "mode" +:+ ": ") gr.2;
  mr ← read_int s;
  s ← expect "}" mr.2;
  Some ({| uid := ur.1; gid := gr.1; mode := mr.1 |}, s).

Fixpoint read_items (fuel : nat) (s : string) (acc : gmap string perms)
  : option (gmap string perms) :=
  match fuel with
  | O => None
  | S fuel' =>
      ks ← read_string s;
      s ← expect ": " ks.2;
      rs ← read_record s;
      let acc' := <[ks.1 := rs.1]> acc in
      match expect ", " rs.2 with
      | Some s' => read_items fuel' s' acc'
      | None =>
          match expect "}" rs.2 with
          | Some EmptyString => Some acc'
          | _ => None
          end
      end
  end.

Definition loads (s : string) : option (gmap string perms) :=
  s1 ← expect "{" s;
  match expect "}" s1 with
  | Some EmptyString => Some ∅
  | Some _ => None
  | None => read_items (String.length s) s1 ∅
  end.

End JsonText.

(** ** Concrete worlds for the scenarios *)

Module Scenario.

Definition a_stat (m : Z) : stat_result :=
  {| st_mode := m; st_uid := 1000; st_gid := 1000; st_nlink := 1;
     st_size := 0; st_blocks := 0; st_blksize := 4096; st_ino := 7;
     st_dev := 1; st_ctime := 0; st_mtime := 0; st_atime := 0 |}.

Definition S_IFDIR_755 : Z := 16877.     (* 0o040755 *)
Definition S_IFREG_644 : Z := 33188.     (* 0o100644 *)
Definition S_IFLNK_777 : Z := 41471.     (* 0o120777 *)

Definition written (old : option stat_result) (data : string) : stat_result :=
  match old with
  | Some st => st
  | None => a_stat S_IFREG_644
  end.

(** [/srv/data] is an empty directory: a first mount. *)
Definition fresh : world :=
  {| disk := list_to_map
       [ (["srv"], Dir (a_stat S_IFDIR_755));
         (["srv"; "data"], Dir (a_stat S_IFDIR_755)) ]%string;
     cwd := "/home" |}.

(** [/srv/data] holds a file, two links and no sidecar. *)
Definition populated : world :=
  {| disk := list_to_map
       [ (["srv"], Dir (a_stat S_IFDIR_755));
         (["srv"; "data"], Dir (a_stat S_IFDIR_755));
         (["srv"; "data"; "a"], File (a_stat S_IFREG_644) "hello");
         (["srv"; "data"; "root"], Symlink (a_stat S_IFLNK_777) "/srv/data");
         (["srv"; "data"; "etc"], Symlink (a_stat S_IFLNK_777) "/etc/passwd");
         (["srv"; "data"; "rel"], Symlink (a_stat S_IFLNK_777) "a") ]%string;
     cwd := "/home" |}.

(** [/srv/data] holds a sidecar that is not JSON. *)
Definition corrupt : world :=
  {| disk := list_to_map
       [ (["srv"], Dir (a_stat S_IFDIR_755));
         (["srv"; "data"], Dir (a_stat S_IFDIR_755));
         (["srv"; "data"; ".fs_perm_remapper.json"],
          File (a_stat S_IFREG_644) "{oops") ]%string;
     cwd := "/home" |}.

Definition src : string := "/srv/data".

Definition mounted (w : world) (m : gmap string perms) : state :=
  {| real := w; src_path := src; permissions := m |}.

(** A store with an override and two trivial defaults. *)
Definition overlay : gmap string perms :=
  list_to_map
    [ ("/a", {| uid := 42; gid := 42; mode := 384 |});
      ("/", {| uid := 0; gid := 0; mode := S_IFDIR_755 |});
      ("/rel", {| uid := 0; gid := 0; mode := S_IFLNK_777 |}) ]%string.

(** A store with overrides only. *)
Definition overrides : gmap string perms :=
  list_to_map
    [ ("/a", {| uid := 42; gid := 42; mode := 384 |});
      ("/", {| uid := 0; gid := 0; mode := 16832 |}) ]%string.

(** [/a] is looked up, then removed behind the store's back. *)
Definition after_unlink : state :=
  (unlink "/a" (getattr "/a" (mounted populated ∅)).2).2.

End Scenario.


(** ** Further operations and notions

    [symlink] and [access] fail in ways the exceptions above do not
    cover; their outcomes add those. *)

(** The components of [p] that name resolution keeps when [p] has no
    [..]: all but the empty ones and [.]. *)
Definition kept_components (p : string) : list string :=
  filter (fun c => c <> EmptyString /\ c <> curdir) (split_sep p).

Inductive failure : Set :=
| Py (e : exn)               (* one of the exceptions above *)
| FileExistsError            (* EEXIST *)
| FuseOSError (errno : Z).   (* raised by the class itself *)

Inductive result (A : Type) : Type :=
| Done (a : A)
| Failed (f : failure).
Arguments Done {A} a.
Arguments Failed {A} f.

Definition EACCES : Z := 13.

Section Passthrough.

(** What the kernel records for a new link, and what [os.access] answers
    for the calling process, are outside the program. *)
Variable stat_after_symlink : string -> stat_result.
Variable os_access : world -> string -> Z -> bool.

(** [os.symlink(content, linkpath)]: a new link named [linkpath] whose
    target is [content]; the name must be free and its directory there. *)
Definition os_symlink (w : world) (content linkpath : string) : result world :=
  if bool_decide (linkpath = EmptyString) || bool_decide (content = EmptyString)
  then Failed (Py FileNotFoundError)
  else
    let k := key_of w linkpath in
    match disk w !! k with
    | Some _ => Failed FileExistsError
    | None =>
        match k with
        | [] => Failed FileExistsError
        | _ :: _ =>
            match disk w !! removelast k with
            | Some (Dir _) =>
                Done (set_disk w
                        (<[k := Symlink (stat_after_symlink content) content]> (disk w)))
            | Some _ => Failed (Py NotADirectoryError)
            | None => Failed (Py FileNotFoundError)
            end
        end
    end.

(** Lines 125-128: the link is made at the real path of [source] and
    points to the real path of [target]. *)
Definition symlink (target source : string) (s : state) : result unit * state :=
  match get_src_path target s with
  | (Raise e, s1) => (Failed (Py e), s1)
  | (Ret real_target, s1) =>
      match get_src_path source s1 with
      | (Raise e, s2) => (Failed (Py e), s2)
      | (Ret real_source, s2) =>
          match os_symlink (real s2) real_target real_source with
          | Done w' => (Done tt, set_real s2 w')
          | Failed f => (Failed f, s2)
          end
      end
  end.

(** Lines 85-87. *)
Definition access (path : string) (amode : Z) (s : state) : result unit * state :=
  match get_src_path path s with
  | (Raise e, s1) => (Failed (Py e), s1)
  | (Ret real_path, s1) =>
      if os_access (real s1) real_path amode then (Done tt, s1)
      else (Failed (FuseOSError EACCES), s1)
  end.

End Passthrough.

(** More worlds and states for the scenarios. *)

Module Cases.

Import Scenario.

(** [/srv/data] after an unmount: it holds a sidecar. *)
Definition used : world :=
  {| disk := list_to_map
       [ (["srv"], Dir (a_stat S_IFDIR_755));
         (["srv"; "data"], Dir (a_stat S_IFDIR_755));
         (["srv"; "data"; "a"], File (a_stat S_IFREG_644) "hello");
         (["srv"; "data"; "d"], Dir (a_stat S_IFDIR_755));
         (["srv"; "data"; "d"; "in"], Symlink (a_stat S_IFLNK_777) "/srv/data/a");
         (["srv"; "data"; ".fs_perm_remapper.json"],
          File (a_stat S_IFREG_644) "{}") ]%string;
     cwd := "/home" |}.

(** [/a] has become a private file of somebody. *)
Definition changed : world :=
  {| disk := list_to_map
       [ (["srv"], Dir (a_stat S_IFDIR_755));
         (["srv"; "data"], Dir (a_stat S_IFDIR_755));
         (["srv"; "data"; "a"], File (a_stat 33152) "hello") ]%string;
     cwd := "/home" |}.

Definition link_stat (content : string) : stat_result := a_stat S_IFLNK_777.

(** Only what others may read is granted. *)
Definition world_readable (w : world) (p : string) (amode : Z) : bool :=
  match lstat w p with
  | Ret st => Z.eqb (Z.land (st_mode st) amode) amode
  | Raise _ => false
  end.

(** [/a] has been looked up; a link [/ln] to [/a] has been made. *)
Definition looked_up : state := (getattr "/a" (mounted populated ∅)).2.

Definition linked : state :=
  (symlink link_stat "/a" "/ln" (mounted populated ∅)).2.

End Cases.


(** * Properties

    From here on: lemmas about the definitions above, then the checked
    properties, then the scenarios that run them. *)

#[local] Arguments String.append : simpl nomatch.

(** *** Steps of the store *)

Lemma get_src_path_state path s : (get_src_path path s).2 = s.
Proof. destruct path; reflexivity. Qed.

Lemma lstat_src_state path s : (lstat_src path s).2 = s.
Proof.
  unfold lstat_src, bind, os_call.
  pose proof (get_src_path_state path s) as H.
  destruct (get_src_path path s) as [[rp|e] s']; simpl in *; subst; reflexivity.
Qed.

Lemma lstat_src_eq path s : lstat_src path s = ((lstat_src path s).1, s).
Proof. rewrite <- (lstat_src_state path s) at 3. by destruct (lstat_src path s). Qed.

Lemma lstat_src_frame path s m :
  (lstat_src path (set_permissions s m)).1 = (lstat_src path s).1.
Proof. unfold lstat_src, bind, os_call. destruct path; reflexivity. Qed.

Lemma has_permissions_None path s :
  permissions s !! path = None -> has_permissions path s = (Ret false, s).
Proof.
  intros E. unfold has_permissions, gets. rewrite E.
  rewrite bool_decide_eq_false_2; [done | by intros [? ?]].
Qed.

Lemma has_permissions_Some path s r :
  permissions s !! path = Some r -> has_permissions path s = (Ret true, s).
Proof.
  intros E. unfold has_permissions, gets. rewrite E.
  rewrite bool_decide_eq_true_2; [done | by eexists].
Qed.

Lemma set_permissions_twice s m m' :
  set_permissions (set_permissions s m) m' = set_permissions s m'.
Proof. reflexivity. Qed.

Lemma set_permissions_id s : set_permissions s (permissions s) = s.
Proof. by destruct s. Qed.

Lemma chown_fresh path u g s :
  permissions s !! path = None ->
  chown path u g s =
    match (lstat_src path s).1 with
    | Ret stats =>
        (Ret tt, set_permissions s
           (<[path := {| uid := u; gid := g; mode := st_mode stats |}]> (permissions s)))
    | Raise e => (Raise e, s)
    end.
Proof.
  intros E. unfold chown, bind. rewrite (has_permissions_None _ _ E). simpl.
  rewrite (lstat_src_eq path s). by destruct (lstat_src path s).1.
Qed.

Lemma chown_seen path u g s r :
  permissions s !! path = Some r ->
  chown path u g s =
    (Ret tt, set_permissions s
       (<[path := {| uid := u; gid := g; mode := mode r |}]> (permissions s))).
Proof.
  intros E. unfold chown, bind. rewrite (has_permissions_Some _ _ _ E). simpl.
  unfold store_field, bind, fetch, store. rewrite E. simpl.
  rewrite lookup_insert_eq. simpl. by rewrite set_permissions_twice, insert_insert_eq.
Qed.

Lemma chmod_fresh path m s :
  permissions s !! path = None ->
  chmod path m s =
    (Ret tt, set_permissions s
       (<[path := {| uid := 0; gid := 0; mode := m |}]> (permissions s))).
Proof.
  intros E. unfold chmod, bind. by rewrite (has_permissions_None _ _ E).
Qed.

Lemma chmod_seen path m s r :
  permissions s !! path = Some r ->
  chmod path m s =
    (Ret tt, set_permissions s
       (<[path := {| uid := uid r; gid := gid r; mode := m |}]> (permissions s))).
Proof.
  intros E. unfold chmod, bind. rewrite (has_permissions_Some _ _ _ E). simpl.
  unfold store_field, bind, fetch, store. by rewrite E.
Qed.

Lemma get_permissions_fresh path s :
  permissions s !! path = None ->
  get_permissions path s =
    match (lstat_src path s).1 with
    | Ret stats =>
        let r := {| uid := 0; gid := 0; mode := st_mode stats |} in
        (Ret r, set_permissions s (<[path := r]> (permissions s)))
    | Raise e => (Raise e, s)
    end.
Proof.
  intros E. unfold get_permissions, bind. rewrite (has_permissions_None _ _ E). simpl.
  rewrite (lstat_src_eq path s). destruct (lstat_src path s).1; [|done].
  unfold store, fetch. simpl. by rewrite lookup_insert_eq.
Qed.

Lemma get_permissions_seen path s r :
  permissions s !! path = Some r ->
  get_permissions path s = (Ret r, s).
Proof.
  intros E. unfold get_permissions, bind. rewrite (has_permissions_Some _ _ _ E). simpl.
  unfold fetch. by rewrite E.
Qed.

Lemma getattr_fresh path s stats :
  permissions s !! path = None ->
  (lstat_src path s).1 = Ret stats ->
  let r := {| uid := 0; gid := 0; mode := st_mode stats |} in
  getattr path s =
    (Ret (attrs r stats), set_permissions s (<[path := r]> (permissions s))).
Proof.
  intros E L. unfold getattr, bind. rewrite (lstat_src_eq path s), L.
  rewrite (get_permissions_fresh _ _ E), L. reflexivity.
Qed.

Lemma getattr_seen path s stats r :
  permissions s !! path = Some r ->
  (lstat_src path s).1 = Ret stats ->
  getattr path s = (Ret (attrs r stats), s).
Proof.
  intros E L. unfold getattr, bind. rewrite (lstat_src_eq path s), L.
  by rewrite (get_permissions_seen _ _ _ E).
Qed.

Lemma getattr_missing path s e :
  (lstat_src path s).1 = Raise e -> getattr path s = (Raise e, s).
Proof.
  intros L. unfold getattr, bind. by rewrite (lstat_src_eq path s), L.
Qed.

(** C3. [chown] and [chmod] change nothing but the store: whatever the
    path and the arguments, and whether they return or raise, the real
    filesystem (every file's owner, mode and content) and the source root
    are after the call what they were before it. *)
Theorem chown_chmod_frame (path : string) (uid' gid' mode' : Z) (s : state) :
  real (chown path uid' gid' s).2 = real s /\
  src_path (chown path uid' gid' s).2 = src_path s /\
  real (chmod path mode' s).2 = real s /\
  src_path (chmod path mode' s).2 = src_path s.
Proof.
  destruct (permissions s !! path) as [r|] eqn:E.
  - by rewrite (chown_seen _ _ _ _ _ E), (chmod_seen _ _ _ _ E).
  - rewrite (chown_fresh _ _ _ _ E), (chmod_fresh _ _ _ E).
    by destruct (lstat_src path s).1.
Qed.

(** C5. For a path without a record whose real file is there, the first
    lookup stores and returns the record with owner 0/0 and the real
    file's mode; the second lookup returns the same record and leaves the
    store as it is; [getattr] called twice returns the same bundle, whose
    mode is the real mode and whose owner is 0/0. *)
Theorem getattr_lazy_default (path : string) (s : state) (stats : stat_result) :
  permissions s !! path = None ->
  (lstat_src path s).1 = Ret stats ->
  let r := {| uid := 0; gid := 0; mode := st_mode stats |} in
  let s1 := set_permissions s (<[path := r]> (permissions s)) in
  get_permissions path s = (Ret r, s1) /\
  get_permissions path s1 = (Ret r, s1) /\
  getattr path s = (Ret (attrs r stats), s1) /\
  getattr path s1 = (Ret (attrs r stats), s1) /\
  st_mode (attrs r stats) = st_mode stats /\
  st_uid (attrs r stats) = 0 /\ st_gid (attrs r stats) = 0.
Proof.
  intros E L r s1.
  assert (E1 : permissions s1 !! path = Some r) by apply lookup_insert_eq.
  assert (L1 : (lstat_src path s1).1 = Ret stats)
    by (unfold s1; by rewrite lstat_src_frame).
  repeat split.
  - by rewrite (get_permissions_fresh _ _ E), L.
  - by apply get_permissions_seen.
  - by apply getattr_fresh.
  - by apply getattr_seen.
Qed.

(** C6. On a path without a record whose real file is there, [chmod]
    then [chown] and [chown] then [chmod] both succeed and end in the
    same state, where the record of the path has the mode given to
    [chmod] and the owner given to [chown] (0o600 and 42/42 in
    particular). *)
Theorem chmod_chown_commute (path : string) (s : state) (stats : stat_result) (m u g : Z) :
  permissions s !! path = None ->
  (lstat_src path s).1 = Ret stats ->
  let r := {| uid := u; gid := g; mode := m |} in
  let s' := set_permissions s (<[path := r]> (permissions s)) in
  chown path u g (chmod path m s).2 = (Ret tt, s') /\
  chmod path m (chown path u g s).2 = (Ret tt, s') /\
  (chmod path m s).1 = Ret tt /\ (chown path u g s).1 = Ret tt /\
  permissions s' !! path = Some r.
Proof.
  intros E L r s'. rewrite (chmod_fresh _ _ _ E), (chown_fresh _ _ _ _ E), L. simpl.
  repeat split.
  - erewrite chown_seen by apply lookup_insert_eq. simpl.
    by rewrite set_permissions_twice, insert_insert_eq.
  - erewrite chmod_seen by apply lookup_insert_eq. simpl.
    by rewrite set_permissions_twice, insert_insert_eq.
  - apply lookup_insert_eq.
Qed.

(** The first order needs no real file; the second one does, as [chown]
    reads the mode of the real file when the path has no record. *)
Lemma chmod_then_chown_any_path (path : string) (s : state) (m u g : Z) :
  permissions s !! path = None ->
  chown path u g (chmod path m s).2 =
    (Ret tt, set_permissions s
       (<[path := {| uid := u; gid := g; mode := m |}]> (permissions s))).
Proof.
  intros E. rewrite (chmod_fresh _ _ _ E). simpl.
  erewrite chown_seen by apply lookup_insert_eq. simpl.
  by rewrite set_permissions_twice, insert_insert_eq.
Qed.

Lemma chown_first_on_missing_file (path : string) (s : state) (e : exn) (m u g : Z) :
  permissions s !! path = None ->
  (lstat_src path s).1 = Raise e ->
  chown path u g s = (Raise e, s) /\
  chmod path m (chown path u g s).2 =
    (Ret tt, set_permissions s
       (<[path := {| uid := 0; gid := 0; mode := m |}]> (permissions s))).
Proof.
  intros E L. rewrite (chown_fresh _ _ _ _ E), L. split; [done|].
  by apply chmod_fresh.
Qed.

(** *** The loop of [destroy] *)

Section Destroy.
Variable json_dump : gmap string perms -> string.
Variable stat_after_write : option stat_result -> string -> stat_result.

Lemma trivial_test (r : perms) (stats : stat_result) :
  (st_mode stats =? mode r) && (uid r =? 0) && (gid r =? 0)
  = bool_decide (uid r = 0 /\ gid r = 0 /\ mode r = st_mode stats).
Proof.
  case_bool_decide as H.
  - destruct H as (-> & -> & ->). by rewrite Z.eqb_refl.
  - apply not_true_is_false. intros Hb.
    apply andb_prop in Hb as [Hb Hg]. apply andb_prop in Hb as [Hm Hu].
    apply H. by apply Z.eqb_eq in Hm, Hu, Hg.
Qed.

Lemma destroy_loop_ok (s : state) (items : list (string * perms)) acc :
  Forall (fun kv => exists stats, (lstat_src kv.1 s).1 = Ret stats) items ->
  destroy_loop items acc s = (Ret (foldl (keep s) acc items), s).
Proof.
  intros H. revert acc. induction H as [|[path r] items [stats L] _ IH]; intros acc.
  - reflexivity.
  - simpl in L. simpl. unfold bind at 1. rewrite (lstat_src_eq path s), L.
    rewrite trivial_test. unfold keep at 2, trivial_default. simpl. rewrite L.
    case_bool_decide; apply IH.
Qed.

Lemma destroy_loop_raises (s : state) (items : list (string * perms)) acc e :
  Exists (fun kv => (lstat_src kv.1 s).1 = Raise e) items ->
  Forall (fun kv => (exists stats, (lstat_src kv.1 s).1 = Ret stats)
                    \/ (lstat_src kv.1 s).1 = Raise e) items ->
  destroy_loop items acc s = (Raise e, s).
Proof.
  intros Hex Hall. revert acc Hex.
  induction Hall as [|[path r] items Hhd _ IH]; intros acc Hex.
  - by apply Exists_nil in Hex.
  - simpl. unfold bind at 1. rewrite (lstat_src_eq path s).
    destruct Hhd as [[stats L]|L]; simpl in L; rewrite L; [|done].
    apply Exists_cons in Hex as [Hex|Hex]; [simpl in Hex; congruence|].
    destruct (_ && _); by apply IH.
Qed.

Lemma foldl_keep_lookup (s : state) (items : list (string * perms)) acc path r :
  NoDup items.*1 ->
  (forall kv, kv ∈ items -> acc !! kv.1 = None) ->
  foldl (keep s) acc items !! path = Some r <->
  acc !! path = Some r \/ ((path, r) ∈ items /\ trivial_default s path r = false).
Proof.
  revert acc. induction items as [|[k v] items IH]; intros acc Hnd Hacc; simpl.
  - split; [auto | intros [?|[H _]]; [done | by apply elem_of_nil in H]].
  - apply NoDup_cons in Hnd as [Hk Hnd].
    assert (Hacck : acc !! k = None) by (apply (Hacc (k, v)); left).
    rewrite IH; [|done|].
    + unfold keep at 1. simpl. rewrite elem_of_cons.
      destruct (trivial_default s k v) eqn:T.
      * split; [intros [?|[? ?]]; auto|]. intros [?|[[[= -> ->]|?] ?]]; [auto|congruence|auto].
      * destruct (decide (path = k)) as [->|Hne].
        -- rewrite lookup_insert_eq. split.
           ++ intros [[= ->]|[Hin _]]; [auto|].
              exfalso. apply Hk. apply list_elem_of_fmap. by exists (k, r).
           ++ intros [?|[[[= ->]|Hin] ?]]; [congruence|auto|].
              exfalso. apply Hk. apply list_elem_of_fmap. by exists (k, r).
        -- rewrite lookup_insert_ne by done.
           split; [intros [?|[? ?]]; auto|].
           intros [?|[[[= ? ?]|?] ?]]; [auto|congruence|auto].
    + intros [k' v'] Hin. unfold keep. simpl.
      assert (k' ≠ k).
      { intros ->. apply Hk. apply list_elem_of_fmap. by exists (k, v'). }
      destruct (trivial_default s k v); [|rewrite lookup_insert_ne by done];
        apply (Hacc (k', v')); by right.
Qed.

Lemma foldl_keep_pruned (s : state) :
  foldl (keep s) ∅ (map_to_list (permissions s)) = pruned s.
Proof.
  apply map_eq. intros path. apply option_eq. intros r.
  rewrite foldl_keep_lookup.
  - unfold pruned. rewrite map_lookup_filter_Some, elem_of_map_to_list, lookup_empty.
    simpl. split; [by intros [?|?] | auto].
  - apply NoDup_fst_map_to_list.
  - intros. apply lookup_empty.
Qed.

Lemma destroy_loop_pruned (s : state) :
  records_resolve s ->
  destroy_loop (map_to_list (permissions s)) ∅ s = (Ret (pruned s), s).
Proof.
  intros H. rewrite destroy_loop_ok, foldl_keep_pruned; [done|].
  apply Forall_forall. intros [path r] Hin. apply elem_of_map_to_list in Hin.
  by apply (H path r).
Qed.

Lemma destroy_resolved (s : state) :
  records_resolve s ->
  destroy json_dump stat_after_write s =
  os_effect (fun w => write_text stat_after_write w
                        (sidecar_path (src_path s)) (json_dump (pruned s))) s.
Proof.
  intros H. unfold destroy, bind, gets. by rewrite (destroy_loop_pruned _ H).
Qed.

Lemma pruned_lookup (s : state) (path : string) :
  pruned s !! path =
  match permissions s !! path with
  | Some r => if trivial_default s path r then None else Some r
  | None => None
  end.
Proof.
  unfold pruned. destruct (permissions s !! path) as [r|] eqn:E.
  - destruct (trivial_default s path r) eqn:T.
    + apply map_lookup_filter_None. right. intros r' E'. simpl. congruence.
    + apply map_lookup_filter_Some. done.
  - apply map_lookup_filter_None. by left.
Qed.

End Destroy.

(** *** Strings and names *)

Lemma string_app_assoc (a b c : string) : (a +:+ b) +:+ c = a +:+ (b +:+ c).
Proof. induction a as [|x a IH]; simpl; [done | by f_equal]. Qed.

Lemma string_app_nil_r (a : string) : a +:+ EmptyString = a.
Proof. induction a as [|x a IH]; simpl; [done | by f_equal]. Qed.

Lemma split_nonempty (s : string) : split_sep s <> [].
Proof.
  induction s as [|c s IH]; simpl; [done|].
  destruct (Ascii.eqb c sep); [done|]. by destruct (split_sep s).
Qed.

Lemma split_app_sep (a b : string) :
  split_sep (a +:+ String sep b) = split_sep a ++ split_sep b.
Proof.
  induction a as [|c a IH]; simpl; [done|].
  destruct (Ascii.eqb c sep); [by rewrite IH|].
  rewrite IH. pose proof (split_nonempty a). by destruct (split_sep a).
Qed.

Lemma endswith_sep_inv (a : string) :
  endswith_sep a = true -> exists a', a = a' +:+ String sep EmptyString.
Proof.
  induction a as [|c a IH]; simpl; [done|].
  destruct a as [|d a].
  - intros H. apply Ascii.eqb_eq in H as ->. by exists EmptyString.
  - intros H. destruct (IH H) as [a' ->]. by exists (String c a').
Qed.

Lemma startswith_sep_app (a b : string) :
  a <> EmptyString -> startswith_sep (a +:+ b) = startswith_sep a.
Proof. by destruct a. Qed.

Lemma walk_app (stack l1 l2 : list string) :
  walk stack (l1 ++ l2) = walk (walk stack l1) l2.
Proof.
  revert stack. induction l1 as [|c l1 IH]; intros stack; simpl; [done|].
  repeat case_match; apply IH.
Qed.

Lemma key_of_unfold (w : world) (p : string) :
  key_of w p =
  rev (walk (if startswith_sep p then [] else walk [] (split_sep (cwd w))) (split_sep p)).
Proof.
  unfold key_of, resolve_from. rewrite rev_involutive.
  by destruct (startswith_sep (cwd w)).
Qed.

Lemma walk_split_join (stack : list string) (a b : string) :
  a <> EmptyString -> startswith_sep b = false ->
  walk stack (split_sep (join a b)) = walk (walk stack (split_sep a)) (split_sep b).
Proof.
  intros Ha Hb. unfold join. rewrite Hb, bool_decide_eq_false_2 by done. simpl.
  destruct (endswith_sep a) eqn:E.
  - destruct (endswith_sep_inv _ E) as [a' ->].
    rewrite string_app_assoc. simpl.
    rewrite !split_app_sep. simpl. by rewrite !walk_app.
  - change (a +:+ "/" +:+ b) with (a +:+ String sep b).
    by rewrite split_app_sep, walk_app.
Qed.

Lemma startswith_sep_join_l (a b : string) :
  a <> EmptyString -> startswith_sep b = false ->
  startswith_sep (join a b) = startswith_sep a.
Proof.
  intros Ha Hb. unfold join. rewrite Hb, bool_decide_eq_false_2 by done. simpl.
  destruct (endswith_sep a); by rewrite startswith_sep_app.
Qed.

(** The real name of [join src name] for a [name] without a leading
    separator: [name] resolved from the directory [src]. *)
Lemma key_of_join (w : world) (src name : string) :
  src <> EmptyString ->
  startswith_sep name = false ->
  key_of w (join src name) = resolve_from (key_of w src) name.
Proof.
  intros Hsrc Hname. unfold resolve_from. rewrite Hname, !key_of_unfold.
  rewrite rev_involutive, startswith_sep_join_l, walk_split_join by done.
  done.
Qed.

Lemma key_of_root (w : world) (src : string) :
  src <> EmptyString -> key_of w (join src EmptyString) = key_of w src.
Proof.
  intros H. rewrite key_of_join by done. unfold resolve_from. simpl.
  apply rev_involutive.
Qed.

Lemma key_of_sidecar (w : world) (src : string) :
  src <> EmptyString ->
  key_of w (sidecar_path src) = key_of w src ++ [REMAPPER_PERM_FILE].
Proof.
  intros H. unfold sidecar_path. rewrite key_of_join by done.
  unfold resolve_from.
  change (split_sep REMAPPER_PERM_FILE) with [REMAPPER_PERM_FILE].
  simpl. by rewrite rev_involutive.
Qed.

Lemma join_nonempty (src name : string) :
  name <> EmptyString -> join src name <> EmptyString.
Proof.
  unfold join. intros H. destruct (startswith_sep name); [done|].
  destruct (_ || _); destruct src; done.
Qed.

(** *** Reading back what was written *)

Lemma follow_not_link d n k k' :
  follow d n k = Ret k' -> forall st t, d !! k' <> Some (Symlink st t).
Proof.
  revert k. induction n as [|n IH]; intros k; simpl.
  - destruct (d !! k) as [[| |]|] eqn:E; intros [= <-]; congruence.
  - destruct (d !! k) as [[| |]|] eqn:E; try (intros [= <-]; congruence).
    apply IH.
Qed.

Lemma follow_here d n k :
  (forall st t, d !! k <> Some (Symlink st t)) -> follow d n k = Ret k.
Proof.
  intros H. destruct n; simpl; destruct (d !! k) as [[| |]|] eqn:E;
    try done; by destruct (H st target).
Qed.

Lemma follow_insert d n k k' st data :
  follow d n k = Ret k' ->
  follow (<[k' := File st data]> d) n k = Ret k'.
Proof.
  revert k. induction n as [|n IH]; intros k; simpl.
  - destruct (d !! k) as [[| |]|] eqn:E; intros [= <-];
      by rewrite lookup_insert_eq.
  - destruct (d !! k) as [[| |]|] eqn:E; try (intros [= <-]; by rewrite lookup_insert_eq).
    intros H. assert (k <> k').
    { intros ->. by eapply follow_not_link. }
    rewrite lookup_insert_ne, E by done. by apply IH.
Qed.

Lemma disk_set_disk (w : world) d : disk (set_disk w d) = d.
Proof. reflexivity. Qed.

Lemma key_of_set_disk (w : world) d p : key_of (set_disk w d) p = key_of w p.
Proof. reflexivity. Qed.

Section Writes.
Variable stat_after_write : option stat_result -> string -> stat_result.

Lemma write_text_inv (w w' : world) (p data : string) :
  write_text stat_after_write w p data = Ret w' ->
  exists k st,
    p <> EmptyString /\
    follow (disk w) MAXSYMLINKS (key_of w p) = Ret k /\
    w' = set_disk w (<[k := File st data]> (disk w)).
Proof.
  unfold write_text, snode. case_bool_decide as Hp; [done|].
  destruct (follow _ _ _) as [k|] eqn:F; [|done].
  destruct (disk w !! k) as [[st d| |]|] eqn:E; try done.
  - intros [= <-]. eauto.
  - destruct k; [done|]. destruct (disk w !! removelast _) as [[| |]|]; try done.
    intros [= <-]. eauto.
Qed.

Lemma write_then_read (w w' : world) (p data : string) :
  write_text stat_after_write w p data = Ret w' ->
  path_exists w' p = true /\ read_text w' p = Ret data /\ cwd w' = cwd w.
Proof.
  intros H. destruct (write_text_inv _ _ _ _ H) as (k & st & Hp & F & ->).
  unfold path_exists, read_text, snode. rewrite bool_decide_eq_false_2 by done.
  rewrite key_of_set_disk, disk_set_disk.
  by rewrite (follow_insert _ _ _ _ st data F), lookup_insert_eq.
Qed.

Lemma write_over_file (w : world) (p old data : string) :
  read_text w p = Ret old ->
  exists w', write_text stat_after_write w p data = Ret w'.
Proof.
  unfold read_text, write_text. destruct (snode w p) as [[k [[st d| |]|]]|]; try done.
  eauto.
Qed.

Lemma write_new_sidecar (w : world) (src data : string) :
  source_dir w src ->
  lnode w (sidecar_path src) = Raise FileNotFoundError ->
  exists w', write_text stat_after_write w (sidecar_path src) data = Ret w'.
Proof.
  intros (k & st & Hdir) Hfree.
  unfold lnode in Hdir. case_bool_decide as Hsrc; [done|].
  destruct (disk w !! key_of w src) as [n|] eqn:E; [|done].
  injection Hdir as <- ->.
  unfold lnode in Hfree. rewrite bool_decide_eq_false_2 in Hfree
    by (by apply join_nonempty).
  destruct (disk w !! key_of w (sidecar_path src)) eqn:E'; [done|].
  unfold write_text, snode. rewrite bool_decide_eq_false_2 by (by apply join_nonempty).
  rewrite follow_here by (intros ??; congruence). rewrite E'.
  rewrite key_of_sidecar by done.
  destruct (key_of w src ++ _) as [|c l] eqn:K; [by destruct (key_of w src)|].
  rewrite <- K, removelast_last, E. eauto.
Qed.

End Writes.
(** *** Listing *)

Lemma readdir_root (s : state) :
  readdir "/" s =
  (match real_entries (real s) (join (src_path s) EmptyString) with
   | Ret names => list_remove REMAPPER_PERM_FILE ("." :: ".." :: names)%string
   | Raise e => Raise e
   end, s).
Proof.
  unfold readdir, real_entries, bind, os_call, ret, gets.
  cbn -[list_remove REMAPPER_PERM_FILE join].
  destruct (path_isdir _ _); cbn -[list_remove REMAPPER_PERM_FILE join].
  - destruct (listdir _ _) as [names|e]; [|done].
    rewrite bool_decide_eq_true_2 by done.
    by destruct (list_remove _ _).
  - rewrite bool_decide_eq_true_2 by done.
    by destruct (list_remove _ _).
Qed.

Lemma readdir_other (path : string) (s : state) (rp : string) :
  path <> "/"%string ->
  (get_src_path path s).1 = Ret rp ->
  readdir path s =
  (match real_entries (real s) rp with
   | Ret names => Ret ("." :: ".." :: names)%string
   | Raise e => Raise e
   end, s).
Proof.
  intros Hp Hrp. unfold readdir, real_entries, bind, os_call, ret.
  destruct path as [|c rest]; [done|].
  cbn -[list_remove REMAPPER_PERM_FILE join] in *. injection Hrp as <-.
  rewrite bool_decide_eq_false_2 by done.
  destruct (path_isdir _ _); cbn -[list_remove REMAPPER_PERM_FILE join]; [|done].
  by destruct (listdir _ _).
Qed.

Lemma readdir_state (path : string) (s : state) : (readdir path s).2 = s.
Proof.
  destruct (decide (path = "/"%string)) as [->|Hne].
  - rewrite readdir_root. done.
  - destruct path as [|c rest]; [done|].
    by erewrite readdir_other.
Qed.

Lemma list_remove_absent (x : string) (l : list string) :
  x ∉ l -> list_remove x l = Raise ValueError.
Proof.
  induction l as [|y l IH]; [done|]. intros H. apply not_elem_of_cons in H as [Hne Hl].
  simpl. rewrite bool_decide_eq_false_2 by done. by rewrite IH.
Qed.

Lemma list_remove_present (x : string) (l : list string) :
  x ∈ l -> NoDup l ->
  exists l', list_remove x l = Ret l' /\ (x ∉ l') /\
             forall y, y ∈ l' <-> y ∈ l /\ y <> x.
Proof.
  induction l as [|z l IH]; [by intros ?%elem_of_nil|].
  intros Hin Hnd. apply NoDup_cons in Hnd as [Hz Hnd]. simpl.
  case_bool_decide as Hzx.
  - subst z. exists l. split; [done|]. split; [done|].
    intros y. rewrite elem_of_cons. split.
    + intros Hy. split; [by right | congruence].
    + by intros [[->|Hy] Hne].
  - apply elem_of_cons in Hin as [->|Hin]; [done|].
    destruct (IH Hin Hnd) as (l' & -> & Hx & Hl'). exists (z :: l').
    split; [done|]. split.
    + rewrite elem_of_cons. by intros [->|Hx'].
    + intros y. rewrite !elem_of_cons, Hl'. split.
      * intros [->|[Hy Hne]]; [by split; [left|] | by split; [right|]].
      * intros [[->|Hy] Hne]; [by left | by right].
Qed.

(** *** Requests that read leave the real files alone *)

Lemma readlink_state (path : string) (s : state) : (readlink path s).2 = s.
Proof.
  unfold readlink, bind, os_call, ret, gets, raise.
  destruct path as [|c rest]; [done|]. simpl.
  destruct (os_readlink _ _) as [[|d t]|]; simpl; try done.
  by destruct (Ascii.eqb d sep).
Qed.

Lemma trivial_default_frame (s : state) m path r :
  trivial_default (set_permissions s m) path r = trivial_default s path r.
Proof. unfold trivial_default. by rewrite lstat_src_frame. Qed.

Lemma getattr_keeps_trivial (path : string) (s : state) :
  all_trivial s ->
  all_trivial (getattr path s).2 /\
  real (getattr path s).2 = real s /\
  src_path (getattr path s).2 = src_path s.
Proof.
  intros H. destruct ((lstat_src path s).1) as [stats|e] eqn:L.
  - destruct (permissions s !! path) as [r|] eqn:E.
    + by rewrite (getattr_seen _ _ _ _ E L).
    + rewrite (getattr_fresh _ _ _ E L). simpl. split; [|done].
      intros p r. rewrite trivial_default_frame. simpl.
      destruct (decide (p = path)) as [->|Hne].
      * rewrite lookup_insert_eq. intros [= <-].
        unfold trivial_default. rewrite L. by apply bool_decide_eq_true_2.
      * rewrite lookup_insert_ne by done. apply H.
  - by rewrite (getattr_missing _ _ _ L).
Qed.

Lemma session_keeps_trivial (qs : list request) (s : state) :
  all_trivial s ->
  all_trivial (session qs s) /\
  real (session qs s) = real s /\
  src_path (session qs s) = src_path s.
Proof.
  revert s. induction qs as [|q qs IH]; intros s H; [done|].
  simpl.
  assert (Hq : all_trivial (serve q s) /\ real (serve q s) = real s /\
               src_path (serve q s) = src_path s).
  { destruct q; simpl.
    - by apply getattr_keeps_trivial.
    - by rewrite readdir_state.
    - by rewrite readlink_state. }
  destruct Hq as (Hq & Hr & Hp). destruct (IH _ Hq) as (? & ? & ?).
  repeat split; [done | congruence | congruence].
Qed.

Lemma all_trivial_resolve (s : state) : all_trivial s -> records_resolve s.
Proof.
  intros H path r E. specialize (H path r E). unfold trivial_default in H.
  destruct (lstat_src path s).1; [eauto | done].
Qed.

Lemma all_trivial_pruned (s : state) : all_trivial s -> pruned s = ∅.
Proof.
  intros H. apply map_eq. intros path. rewrite pruned_lookup, lookup_empty.
  destruct (permissions s !! path) as [r|] eqn:E; [|done].
  by rewrite (H path r E).
Qed.

Lemma no_trivial_pruned (s : state) :
  (forall path r, permissions s !! path = Some r -> trivial_default s path r = false) ->
  pruned s = permissions s.
Proof.
  intros H. apply map_eq. intros path. rewrite pruned_lookup.
  destruct (permissions s !! path) as [r|] eqn:E; [|done].
  by rewrite (H path r E).
Qed.


(** *** Unmounting *)

Section Lifecycle.
Variable json_load : string -> option (gmap string perms).
Variable json_dump : gmap string perms -> string.
Variable stat_after_write : option stat_result -> string -> stat_result.

Lemma sidecar_written (w : world) (src data : string) :
  sidecar_writable w src ->
  exists w', write_text stat_after_write w (sidecar_path src) data = Ret w'.
Proof.
  intros [[old H]|[Hdir Hfree]].
  - by eapply write_over_file.
  - by apply write_new_sidecar.
Qed.

Lemma destroy_writes_pruned (s : state) :
  records_resolve s ->
  sidecar_writable (real s) (src_path s) ->
  exists w',
    destroy json_dump stat_after_write s = (Ret tt, set_real s w') /\
    path_exists w' (sidecar_path (src_path s)) = true /\
    read_text w' (sidecar_path (src_path s)) = Ret (json_dump (pruned s)).
Proof.
  intros Hres Hw. rewrite (destroy_resolved _ _ _ Hres).
  destruct (sidecar_written _ _ (json_dump (pruned s)) Hw) as [w' Hw'].
  exists w'. unfold os_effect. rewrite Hw'.
  destruct (write_then_read _ _ _ _ _ Hw') as (? & ? & _). done.
Qed.

Lemma init_reads_sidecar (w : world) (src data : string) (m : gmap string perms) :
  path_exists w (sidecar_path src) = true ->
  read_text w (sidecar_path src) = Ret data ->
  json_load data = Some m ->
  __init__ json_load w src = Ret {| real := w; src_path := src; permissions := m |}.
Proof.
  unfold __init__, sidecar_path. by intros -> -> ->.
Qed.

Lemma lstat_src_raises (path : string) (s : state) (e : exn) :
  (lstat_src path s).1 = Raise e ->
  (path = EmptyString /\ e = IndexError) \/
  (path <> EmptyString /\ e = FileNotFoundError).
Proof.
  unfold lstat_src, bind, os_call, lstat, lnode.
  destruct path as [|c rest]; simpl; [intros [= <-]; by left|].
  intros H. right. split; [done|]. revert H.
  case_bool_decide; [by intros [= <-]|].
  destruct (disk _ !! _); [done | by intros [= <-]].
Qed.

(** C4. When every record of the store names a real file and the sidecar
    can be written, [destroy] succeeds and the mapping it persists holds,
    of the records of the store, exactly those that are not trivial
    defaults (uid 0, gid 0 and the mode the real file has at that moment),
    each unchanged, and nothing else. *)
Theorem destroy_prunes_trivial_defaults (s : state) :
  records_resolve s ->
  sidecar_writable (real s) (src_path s) ->
  exists (final_perms : gmap string perms) (w' : world),
    destroy json_dump stat_after_write s = (Ret tt, set_real s w') /\
    read_text w' (sidecar_path (src_path s)) = Ret (json_dump final_perms) /\
    (forall path, permissions s !! path = None -> final_perms !! path = None) /\
    (forall path r stats,
        permissions s !! path = Some r ->
        (lstat_src path s).1 = Ret stats ->
        (uid r = 0 /\ gid r = 0 /\ mode r = st_mode stats ->
         final_perms !! path = None) /\
        (~ (uid r = 0 /\ gid r = 0 /\ mode r = st_mode stats) ->
         final_perms !! path = Some r)).
Proof.
  intros Hres Hw.
  destruct (destroy_writes_pruned s Hres Hw) as (w' & Hd & _ & Hr).
  exists (pruned s), w'. split; [done|]. split; [done|]. split.
  - intros path E. by rewrite pruned_lookup, E.
  - intros path r stats E L. rewrite pruned_lookup, E.
    unfold trivial_default. rewrite L. split; intros H.
    + by rewrite bool_decide_eq_true_2.
    + by rewrite bool_decide_eq_false_2.
Qed.

(** C10. When the store holds a record whose real file is gone,
    [destroy] raises [FileNotFoundError] and leaves everything as it was:
    the sidecar is not written. (The keys of the store are virtual paths,
    none of them the empty string.) *)
Theorem destroy_fails_on_missing_file (s : state) (path : string) (r : perms) :
  permissions s !! path = Some r ->
  (lstat_src path s).1 = Raise FileNotFoundError ->
  permissions s !! EmptyString = None ->
  destroy json_dump stat_after_write s = (Raise FileNotFoundError, s).
Proof.
  intros E L Hkeys. unfold destroy, bind, gets.
  rewrite (destroy_loop_raises s _ ∅ FileNotFoundError); [done| |].
  - apply Exists_exists. exists (path, r). split; [|done].
    by apply elem_of_map_to_list.
  - apply Forall_forall. intros [p q] Hin. apply elem_of_map_to_list in Hin.
    simpl. destruct (lstat_src p s).1 as [stats|e] eqn:Lp; [eauto|].
    right. destruct (lstat_src_raises _ _ _ Lp) as [[-> _]|[_ ->]]; [congruence|done].
Qed.

(** C7. A store whose records all name real files and are all
    non-trivial survives unmount and mount: [destroy] writes the sidecar,
    which then holds the dump of the whole store, and [__init__] on the
    resulting files gives the same store back. A sidecar that holds only
    non-trivial entries is thus written back with the mapping it had. *)
Theorem nontrivial_store_round_trip (s : state) :
  records_resolve s ->
  (forall path r, permissions s !! path = Some r ->
                  trivial_default s path r = false) ->
  sidecar_writable (real s) (src_path s) ->
  json_load (json_dump (permissions s)) = Some (permissions s) ->
  exists w',
    destroy json_dump stat_after_write s = (Ret tt, set_real s w') /\
    read_text w' (sidecar_path (src_path s)) = Ret (json_dump (permissions s)) /\
    __init__ json_load w' (src_path s) =
      Ret {| real := w'; src_path := src_path s; permissions := permissions s |}.
Proof.
  intros Hres Hnt Hw Hcodec.
  destruct (destroy_writes_pruned s Hres Hw) as (w' & Hd & He & Hr).
  rewrite (no_trivial_pruned _ Hnt) in Hr.
  exists w'. split; [done|]. split; [done|].
  by apply (init_reads_sidecar _ _ _ _ He Hr).
Qed.

(** C8. Without a sidecar the store starts empty; with a sidecar that
    [json.load] rejects, the constructor raises the decoding error. *)
Theorem init_loads_or_fails (w : world) (src : string) :
  (path_exists w (sidecar_path src) = false ->
   __init__ json_load w src =
     Ret {| real := w; src_path := src; permissions := ∅ |}) /\
  (forall data,
      read_text w (sidecar_path src) = Ret data ->
      json_load data = None ->
      __init__ json_load w src = Raise JSONDecodeError).
Proof.
  unfold __init__, sidecar_path. split.
  - by intros ->.
  - intros data Hr Hl.
    assert (path_exists w (join src REMAPPER_PERM_FILE) = true) as ->.
    { unfold path_exists. unfold read_text in Hr.
      by destruct (snode w _) as [[k [n|]]|]. }
    by rewrite Hr, Hl.
Qed.

End Lifecycle.

(** *** Relative paths *)


Lemma split_plain (s : string) : Forall plain (split_sep s).
Proof.
  unfold plain. induction s as [|c s IH]; simpl.
  - by constructor.
  - destruct (Ascii.eqb c sep) eqn:E; [by constructor|].
    pose proof (split_nonempty s) as Hne.
    destruct (split_sep s) as [|h t]; [done|].
    apply Forall_cons in IH as [Hh Ht]. constructor; [|done].
    simpl. by rewrite E, Hh.
Qed.

Lemma plain_no_leading_sep (c : string) :
  plain c -> startswith_sep c = false.
Proof.
  unfold plain. destruct c as [|a c]; [done|]. simpl.
  destruct (Ascii.eqb a sep); [|done]. intros H. discriminate H.
Qed.

Lemma sep_join_cons (x y : string) (l : list string) :
  sep_join (x :: y :: l) = x +:+ String sep (sep_join (y :: l)).
Proof. reflexivity. Qed.

Lemma split_sep_join (l : list string) :
  l <> [] -> Forall plain l -> split_sep (sep_join l) = l.
Proof.
  induction l as [|x l IH]; [done|]. intros _ H.
  apply Forall_cons in H as [Hx Hl].
  destruct l as [|y l]; [exact Hx|].
  rewrite sep_join_cons, split_app_sep, IH by done. by rewrite Hx.
Qed.

Lemma startswith_sep_join (x : string) (l : list string) :
  x <> EmptyString -> plain x -> startswith_sep (sep_join (x :: l)) = false.
Proof.
  intros Hne Hx. destruct l as [|y l].
  - by apply plain_no_leading_sep.
  - rewrite sep_join_cons, startswith_sep_app by done.
    by apply plain_no_leading_sep.
Qed.


Lemma walk_proper (stack comps : list string) :
  Forall proper stack -> Forall plain comps -> Forall proper (walk stack comps).
Proof.
  revert stack. induction comps as [|c comps IH]; intros stack Hs Hc; [done|].
  apply Forall_cons in Hc as [Hc Hcs]. simpl.
  case_bool_decide as H1; [by apply IH|].
  case_bool_decide as H2; [by apply IH|]. simpl.
  case_bool_decide as H3.
  - apply IH; [|done]. destruct stack; [done|]. by apply Forall_cons in Hs as [_ ?].
  - apply IH; [|done]. constructor; [|done]. done.
Qed.

Lemma walk_pushes (stack comps : list string) :
  Forall proper comps -> walk stack comps = rev comps ++ stack.
Proof.
  revert stack. induction comps as [|c comps IH]; intros stack H; [done|].
  apply Forall_cons in H as [(H1 & H2 & H3 & _) H]. simpl.
  rewrite !bool_decide_eq_false_2 by done. simpl.
  rewrite IH by done. by rewrite <- app_assoc.
Qed.

Lemma walk_pops (stack : list string) (n : nat) :
  walk stack (replicate n pardir) = drop n stack.
Proof.
  revert stack. induction n as [|n IH]; intros stack; [done|].
  simpl. rewrite IH. destruct stack; [by destruct n | done].
Qed.

(** With a leading slash [normpath] walks like the kernel does. *)
Lemma normpath_loop_walk (n : nat) (stack comps : list string) :
  n <> 0%nat -> Forall proper stack -> Forall plain comps ->
  normpath_loop n stack comps = walk stack comps.
Proof.
  intros Hn. revert stack. induction comps as [|c comps IH]; intros stack Hs Hc; [done|].
  apply Forall_cons in Hc as [Hc Hcs]. simpl.
  case_bool_decide as H1; [by apply IH|].
  case_bool_decide as H2; [by apply IH|]. simpl.
  case_bool_decide as H3; simpl.
  - rewrite (bool_decide_eq_false_2 (n = 0%nat)) by done. simpl.
    rewrite bool_decide_eq_false_2.
    + apply IH; [|done]. destruct stack; [done|]. by apply Forall_cons in Hs as [_ ?].
    + destruct stack as [|x stack]; [done|]. simpl. intros [= ->].
      apply Forall_cons in Hs as [(_ & _ & ? & _) _]. done.
  - apply IH; [|done]. by constructor.
Qed.


Lemma lstrip_slashes (n : nat) (s : string) :
  startswith_sep s = false -> lstrip_sep (slashes_string n +:+ s) = s.
Proof.
  intros H. induction n as [|n IH]; simpl.
  - destruct s as [|c s]; [done|]. simpl in *. by rewrite H.
  - done.
Qed.

Lemma tail_list_sep_join (l : list string) :
  Forall proper l -> tail_list (sep_join l) = l.
Proof.
  intros H. unfold tail_list. destruct l as [|x l]; [done|].
  pose proof H as H'. apply Forall_cons in H' as [(Hx & _ & _ & Hp) _].
  rewrite bool_decide_eq_false_2.
  - apply split_sep_join; [done|]. eapply Forall_impl; [exact H|]. by intros ? (_ & _ & _ & ?).
  - destruct l; [done|]. rewrite sep_join_cons. by destruct x.
Qed.

Lemma initial_slashes_absolute (p : string) :
  startswith_sep p = true -> initial_slashes p <> 0%nat.
Proof. unfold initial_slashes. intros ->. by destruct (_ && _). Qed.

Lemma normpath_components (p : string) :
  startswith_sep p = true ->
  components (normpath p) = rev (walk [] (split_sep p)).
Proof.
  intros Hp. unfold components, normpath.
  rewrite bool_decide_eq_false_2 by (by destruct p).
  pose proof (initial_slashes_absolute p Hp) as Hn.
  rewrite normpath_loop_walk by (done || apply split_plain).
  assert (Hpr : Forall proper (rev (walk [] (split_sep p)))).
  { apply Forall_rev. apply walk_proper; [done | apply split_plain]. }
  set (K := rev (walk [] (split_sep p))) in *.
  rewrite bool_decide_eq_false_2.
  - rewrite lstrip_slashes; [by apply tail_list_sep_join|].
    destruct K as [|x K]; [done|].
    apply Forall_cons in Hpr as [(? & _ & _ & ?) _]. by apply startswith_sep_join.
  - destruct (initial_slashes p); done.
Qed.

(** The components of [abspath] are the name the kernel resolves. *)
Lemma abspath_components (w : world) (p : string) :
  startswith_sep (cwd w) = true ->
  components (abspath (cwd w) p) = key_of w p.
Proof.
  intros Hcwd. rewrite key_of_unfold. unfold abspath.
  destruct (startswith_sep p) eqn:Hp.
  - by apply normpath_components.
  - assert (cwd w <> EmptyString) by (by destruct (cwd w)).
    rewrite normpath_components by (by rewrite startswith_sep_join_l).
    by rewrite walk_split_join.
Qed.

Lemma key_of_proper (w : world) (p : string) : Forall proper (key_of w p).
Proof.
  rewrite key_of_unfold. apply Forall_rev. apply walk_proper; [|apply split_plain].
  destruct (startswith_sep p); [done|]. apply walk_proper; [done|apply split_plain].
Qed.

Lemma commonprefix_len_le (l1 l2 : list string) :
  (commonprefix_len l1 l2 <= length l1)%nat /\
  (commonprefix_len l1 l2 <= length l2)%nat.
Proof.
  revert l2. induction l1 as [|x l1 IH]; intros [|y l2]; simpl; try lia.
  case_bool_decide; [|lia]. destruct (IH l2). simpl. lia.
Qed.

Lemma commonprefix_len_take (l1 l2 : list string) :
  take (commonprefix_len l1 l2) l1 = take (commonprefix_len l1 l2) l2.
Proof.
  revert l2. induction l1 as [|x l1 IH]; intros [|y l2]; simpl; try done.
  case_bool_decide as H; [|done]. subst. simpl. by rewrite IH.
Qed.

Lemma commonprefix_len_same (l : list string) : commonprefix_len l l = length l.
Proof.
  induction l as [|x l IH]; [done|]. simpl.
  by rewrite bool_decide_eq_true_2, IH.
Qed.



Lemma relpath_unfold (cwd path start : string) :
  relpath cwd path start =
  rel_string (rel_list (components (abspath cwd start))
                       (components (abspath cwd path))).
Proof. reflexivity. Qed.

Lemma rel_list_solid (S T : list string) :
  Forall proper T ->
  Forall (fun c => c <> EmptyString /\ plain c) (rel_list S T).
Proof.
  intros HT. unfold rel_list. apply Forall_app. split.
  - apply Forall_replicate. by split.
  - apply Forall_drop. eapply Forall_impl; [exact HT|]. by intros c (? & _ & _ & ?).
Qed.

Lemma rel_string_relative (S T : list string) :
  Forall proper T -> startswith_sep (rel_string (rel_list S T)) = false.
Proof.
  intros HT. pose proof (rel_list_solid S T HT) as H.
  destruct (rel_list S T) as [|x l]; [done|].
  apply Forall_cons in H as [[? ?] _]. by apply startswith_sep_join.
Qed.

Lemma rel_string_walk (S T : list string) :
  Forall proper S -> Forall proper T ->
  rev (walk (rev S) (split_sep (rel_string (rel_list S T)))) = T.
Proof.
  intros HS HT.
  pose proof (commonprefix_len_le S T) as [HiS HiT].
  pose proof (commonprefix_len_take S T) as Htake.
  pose proof (rel_list_solid S T HT) as Hsolid.
  unfold rel_list in *. set (i := commonprefix_len S T) in *.
  remember (replicate (length S - i) pardir ++ drop i T) as L eqn:E.
  destruct L as [|x l].
  - symmetry in E. apply app_eq_nil in E as [E1 E2]. simpl.
    assert (length S - i = 0)%nat by (by destruct (length S - i)%nat).
    assert (length T <= i)%nat.
    { apply (f_equal length) in E2. rewrite length_drop in E2. simpl in E2. lia. }
    rewrite rev_involutive.
    rewrite <- (take_ge S i), <- (take_ge T i) by lia. done.
  - change (rel_string (x :: l)) with (sep_join (x :: l)).
    rewrite split_sep_join; [|done|].
    + rewrite E.
      rewrite walk_app, walk_pops, walk_pushes by (by apply Forall_drop).
      rewrite rev_app_distr, rev_involutive.
      rewrite <- (take_drop i S) at 2. rewrite rev_app_distr.
      replace (length S - i)%nat with (length (rev (drop i S)))
        by (by rewrite length_rev, length_drop).
      rewrite drop_app_length, rev_involutive, Htake. apply take_drop.
    + eapply Forall_impl; [exact Hsolid|]. by intros ? [_ ?].
Qed.

Lemma records_resolve_check (s : state) :
  records_resolve_b s = true -> records_resolve s.
Proof.
  unfold records_resolve_b. rewrite forallb_forall. intros H path r E.
  specialize (H (path, r)). simpl in H.
  destruct (lstat_src path s).1; [eauto|].
  discriminate H. apply list_elem_of_In. by apply elem_of_map_to_list.
Qed.

Lemma none_trivial_check (s : state) :
  none_trivial_b s = true ->
  forall path r, permissions s !! path = Some r -> trivial_default s path r = false.
Proof.
  unfold none_trivial_b. rewrite forallb_forall. intros H path r E.
  specialize (H (path, r)). simpl in H. apply negb_true_iff, H.
  apply list_elem_of_In. by apply elem_of_map_to_list.
Qed.

(** *** Links *)

Lemma readlink_target (s : state) (path rp target : string) :
  (get_src_path path s).1 = Ret rp ->
  os_readlink (real s) rp = Ret target ->
  readlink path s =
  (match target with
   | EmptyString => Raise IndexError
   | String c _ =>
       if Ascii.eqb c sep
       then Ret (relpath (cwd (real s)) target (src_path s))
       else Ret target
   end, s).
Proof.
  intros Hrp Ht. unfold readlink, bind, os_call.
  pose proof (get_src_path_state path s) as Hs.
  destruct (get_src_path path s) as [o s']. simpl in *. subst o s'.
  rewrite Ht. destruct target as [|c t]; [done|].
  unfold gets, ret. by destruct (Ascii.eqb c sep).
Qed.

(** C9. [readlink] on a link whose real target is absolute returns
    [relpath] of the target from the source root: a relative path
    which, resolved from the source root, leads where the target leads,
    and which is [.] when the target is the source root itself. A
    relative target is returned as it is. *)
Theorem readlink_rescopes_absolute_targets
    (s : state) (path rp target : string) :
  (get_src_path path s).1 = Ret rp ->
  os_readlink (real s) rp = Ret target ->
  startswith_sep (cwd (real s)) = true ->
  let rel := relpath (cwd (real s)) target (src_path s) in
  (startswith_sep target = true ->
     readlink path s = (Ret rel, s) /\
     startswith_sep rel = false /\
     resolve_from (key_of (real s) (src_path s)) rel = key_of (real s) target /\
     (target = src_path s -> rel = curdir)) /\
  (target <> EmptyString -> startswith_sep target = false ->
     readlink path s = (Ret target, s)).
Proof.
  intros Hrp Ht Hcwd rel. split.
  - intros Habs. split; [|split; [|split]].
    + rewrite (readlink_target _ _ _ _ Hrp Ht).
      destruct target as [|c t]; [done|]. simpl in Habs. by rewrite Habs.
    + unfold rel. rewrite relpath_unfold, !abspath_components by done.
      apply rel_string_relative, key_of_proper.
    + unfold rel, resolve_from.
      rewrite relpath_unfold, !abspath_components by done.
      rewrite rel_string_relative by apply key_of_proper.
      apply rel_string_walk; apply key_of_proper.
    + intros ->. unfold rel. rewrite relpath_unfold. unfold rel_list.
      rewrite commonprefix_len_same, Nat.sub_diag, drop_all. done.
  - intros Hne Hrel. rewrite (readlink_target _ _ _ _ Hrp Ht).
    destruct target as [|c t]; [done|]. simpl in Hrel. by rewrite Hrel.
Qed.

(** *** A first mount *)

Lemma child_name_last (k : list string) (n : string) :
  child_name k (k ++ [n]) = Some n.
Proof.
  induction k as [|c k IH]; [done|]. simpl.
  by rewrite bool_decide_eq_true_2.
Qed.

Lemma children_nil (d : gmap (list string) node) (k : list string) (n : string) :
  children d k = [] -> d !! (k ++ [n]) = None.
Proof.
  intros H. destruct (d !! (k ++ [n])) as [x|] eqn:E; [|done].
  assert (Hin : n ∈ children d k).
  { unfold children. apply list_elem_of_omap. exists (k ++ [n]).
    split; [|apply child_name_last].
    apply list_elem_of_fmap. exists (k ++ [n], x).
    split; [done|]. by apply elem_of_map_to_list. }
  rewrite H in Hin. by apply elem_of_nil in Hin.
Qed.

Lemma join_root_nonempty (src : string) :
  src <> EmptyString -> join src EmptyString <> EmptyString.
Proof.
  unfold join. simpl. intros H. rewrite bool_decide_eq_false_2 by done. simpl.
  destruct (endswith_sep src); by destruct src.
Qed.

Lemma lnode_dir_inv (w : world) (src : string) (k : list string) (st : stat_result) :
  lnode w src = Ret (k, Dir st) ->
  src <> EmptyString /\ k = key_of w src /\ disk w !! key_of w src = Some (Dir st).
Proof.
  unfold lnode. case_bool_decide; [done|].
  destruct (disk w !! key_of w src) as [n|] eqn:E; [|done].
  by intros [= <- ->].
Qed.

(** An empty source directory holds no sidecar. *)
Lemma empty_source_no_sidecar (w : world) (src : string) k st :
  lnode w src = Ret (k, Dir st) ->
  listdir w src = Ret [] ->
  lnode w (sidecar_path src) = Raise FileNotFoundError /\
  path_exists w (sidecar_path src) = false.
Proof.
  intros Hdir Hls. destruct (lnode_dir_inv _ _ _ _ Hdir) as (Hsrc & -> & E).
  unfold listdir, snode in Hls. rewrite bool_decide_eq_false_2 in Hls by done.
  rewrite follow_here in Hls by (intros ??; congruence).
  rewrite E in Hls. injection Hls as Hls.
  pose proof (children_nil _ _ REMAPPER_PERM_FILE Hls) as Hnone.
  rewrite <- key_of_sidecar in Hnone by done.
  assert (sidecar_path src <> EmptyString) by (by apply join_nonempty).
  unfold lnode, path_exists, snode. rewrite !bool_decide_eq_false_2 by done.
  rewrite follow_here by (intros ??; congruence). by rewrite Hnone.
Qed.

Lemma lstat_src_root (s : state) k st :
  lnode (real s) (src_path s) = Ret (k, Dir st) ->
  (lstat_src "/" s).1 = Ret st.
Proof.
  intros Hdir. destruct (lnode_dir_inv _ _ _ _ Hdir) as (Hsrc & -> & E).
  unfold lstat_src, get_src_path, bind, gets, ret, os_call, lstat, lnode.
  cbn -[join]. rewrite bool_decide_eq_false_2 by (by apply join_root_nonempty).
  by rewrite key_of_root, E.
Qed.

Section FirstMount.
Variable json_load : string -> option (gmap string perms).
Variable json_dump : gmap string perms -> string.
Variable stat_after_write : option stat_result -> string -> stat_result.

(** C1. As the code has it: mounted over an empty source directory, the
    store starts empty and [getattr('/')] reports the mode of the real
    root with owner 0/0; after any session of reading requests ([getattr],
    [readdir], [readlink]: no [chmod], no [chown]), [destroy] succeeds and
    writes a sidecar, which holds the dump of the empty mapping. *)
Theorem first_mount_of_empty_source
    (w : world) (src : string) (k : list string) (st : stat_result)
    (qs : list request) :
  lnode w src = Ret (k, Dir st) ->
  listdir w src = Ret [] ->
  let s0 := {| real := w; src_path := src; permissions := ∅ |} in
  path_exists w (sidecar_path src) = false /\
  __init__ json_load w src = Ret s0 /\
  (exists a s1, getattr "/" s0 = (Ret a, s1) /\
                st_mode a = st_mode st /\ st_uid a = 0 /\ st_gid a = 0) /\
  (exists w', destroy json_dump stat_after_write (session qs s0)
                = (Ret tt, set_real (session qs s0) w') /\
              path_exists w' (sidecar_path src) = true /\
              read_text w' (sidecar_path src) = Ret (json_dump ∅)).
Proof.
  intros Hdir Hls s0.
  destruct (empty_source_no_sidecar _ _ _ _ Hdir Hls) as [Hfree Hno].
  split; [done|]. split; [|split].
  - unfold __init__. fold (sidecar_path src). by rewrite Hno.
  - assert (L : (lstat_src "/" s0).1 = Ret st) by (by eapply lstat_src_root).
    eexists _, _. split; [by apply getattr_fresh|]. done.
  - assert (H0 : all_trivial s0).
    { intros path r E. cbv [s0 permissions] in E. by rewrite lookup_empty in E. }
    destruct (session_keeps_trivial qs s0 H0) as (Ht & Hr & Hp).
    destruct (destroy_writes_pruned json_dump stat_after_write (session qs s0))
      as (w' & Hd & He & Hread).
    + by apply all_trivial_resolve.
    + rewrite Hr, Hp. right. split; [by exists k, st | done].
    + rewrite Hp in He, Hread. rewrite (all_trivial_pruned _ Ht) in Hread.
      by exists w'.
Qed.

End FirstMount.

(** *** The root listing *)

Lemma child_name_inv (k k' : list string) (n : string) :
  child_name k k' = Some n -> k' = k ++ [n].
Proof.
  revert k'. induction k as [|c k IH]; intros [|c' k']; simpl; try done.
  - destruct k'; [by intros [= ->] | done].
  - case_bool_decide as H; [|done]. subst c'. intros Hn. by rewrite (IH _ Hn).
Qed.

Lemma children_NoDup (d : gmap (list string) node) (k : list string) :
  NoDup (children d k).
Proof.
  unfold children. pose proof (NoDup_fst_map_to_list d) as Hnd.
  induction Hnd as [|x l Hx Hnd IH]; simpl; [constructor|].
  destruct (child_name k x) as [n|] eqn:E; [|done].
  constructor; [|done]. intros Hin.
  apply list_elem_of_omap in Hin as (x' & Hx' & E').
  apply child_name_inv in E, E'. congruence.
Qed.

Lemma real_entries_NoDup (w : world) (rp : string) (names : list string) :
  real_entries w rp = Ret names -> NoDup names.
Proof.
  unfold real_entries, listdir. destruct (path_isdir w rp).
  - destruct (snode w rp) as [[k [[| |]|]]|]; try done.
    intros [= <-]. apply children_NoDup.
  - intros [= <-]. constructor.
Qed.

Lemma readdir_root_raises_without_sidecar (s : state) (names : list string) :
  real_entries (real s) (join (src_path s) EmptyString) = Ret names ->
  REMAPPER_PERM_FILE ∉ names ->
  readdir "/" s = (Raise ValueError, s).
Proof.
  intros Hn Hnot. rewrite readdir_root, Hn.
  rewrite list_remove_absent; [done|].
  rewrite !not_elem_of_cons. by repeat split.
Qed.

Lemma readdir_root_hides_sidecar (s : state) (names : list string) :
  real_entries (real s) (join (src_path s) EmptyString) = Ret names ->
  REMAPPER_PERM_FILE ∈ names ->
  exists rest,
    readdir "/" s = (Ret ("." :: ".." :: rest)%string, s) /\
    (REMAPPER_PERM_FILE ∉ rest) /\
    forall y, y ∈ rest <-> y ∈ names /\ y <> REMAPPER_PERM_FILE.
Proof.
  intros Hn Hin. pose proof (real_entries_NoDup _ _ _ Hn) as Hnd.
  rewrite readdir_root, Hn.
  destruct (list_remove_present _ _ Hin Hnd) as (rest & Hr & Hx & Hrest).
  exists rest. split; [|done].
  simpl. by rewrite Hr.
Qed.

(** C2. Where the code departs from it: on a first mount the source
    directory holds no sidecar, and listing the root raises [ValueError]
    instead of returning the entries. *)
Theorem readdir_root_fails_without_sidecar :
  __init__ JsonText.loads Scenario.fresh Scenario.src
    = Ret (Scenario.mounted Scenario.fresh ∅) /\
  path_exists Scenario.fresh (sidecar_path Scenario.src) = false /\
  readdir "/" (Scenario.mounted Scenario.fresh ∅)
    = (Raise ValueError, Scenario.mounted Scenario.fresh ∅).
Proof. repeat split. Qed.

(** *** Scenarios *)

Example split_ex : split_sep "/a//b/" = [""; "a"; ""; "b"; ""]%string.
Proof. reflexivity. Qed.

Example join_ex :
  join "/srv/data" "" = "/srv/data/"%string /\
  join "/srv/data/" "a/b" = "/srv/data/a/b"%string /\
  join "/srv/data" "/etc" = "/etc"%string.
Proof. repeat split. Qed.

Example normpath_ex :
  normpath "/a/./b/../c//" = "/a/c"%string /\
  normpath "//a" = "//a"%string /\
  normpath "///a" = "/a"%string /\
  normpath "../../x/.." = "../.."%string /\
  normpath "/.." = "/"%string.
Proof. repeat split. Qed.

Example relpath_ex :
  relpath "/home" "/srv/data/x/y" "/srv/data" = "x/y"%string /\
  relpath "/home" "/etc/passwd" "/srv/data" = "../../etc/passwd"%string /\
  relpath "/home" "/srv/data" "/srv/data/" = "."%string /\
  relpath "/srv" "/srv/data/x" "data" = "x"%string.
Proof. repeat split. Qed.

Example json_text_ex :
  JsonText.dumps ∅ = "{}"%string /\
  JsonText.loads (JsonText.dumps Scenario.overlay) = Some Scenario.overlay /\
  JsonText.loads "{oops" = None.
Proof. repeat split; vm_compute; reflexivity. Qed.

Example readdir_after_first_unmount :
  let s := Scenario.mounted Scenario.populated ∅ in
  (readdir "/" (destroy JsonText.dumps Scenario.written s).2).1
    = Ret ["."; ".."; "root"; "rel"; "etc"; "a"]%string /\
  (readdir "/a" s).1 = Ret ["."; ".."]%string.
Proof. split; vm_compute; reflexivity. Qed.

(** C1 fails as it is stated: the session below has no chmod and no
    chown, and the unmount writes a sidecar all the same. *)
Lemma unmount_writes_sidecar_anyway :
  let s0 := Scenario.mounted Scenario.fresh ∅ in
  let s1 := (getattr "/" s0).2 in
  let end_ := destroy JsonText.dumps Scenario.written s1 in
  __init__ JsonText.loads Scenario.fresh Scenario.src = Ret s0 /\
  listdir Scenario.fresh Scenario.src = Ret [] /\
  path_exists (real s0) (sidecar_path Scenario.src) = false /\
  end_.1 = Ret tt /\
  path_exists (real end_.2) (sidecar_path Scenario.src) = true /\
  read_text (real end_.2) (sidecar_path Scenario.src) = Ret "{}"%string /\
  ~ (path_exists (real end_.2) (sidecar_path Scenario.src) = false).
Proof. repeat split; try (vm_compute; reflexivity). vm_compute. discriminate. Qed.

(** *** The theorems at concrete inputs *)

Lemma getattr_lazy_default_witness :
  let s := Scenario.mounted Scenario.populated ∅ in
  let r := {| uid := 0; gid := 0; mode := Scenario.S_IFREG_644 |} in
  let s1 := set_permissions s {[ "/a"%string := r ]} in
  permissions s !! "/a"%string = None /\
  (lstat_src "/a" s).1 = Ret (Scenario.a_stat Scenario.S_IFREG_644) /\
  getattr "/a" s = (Ret (attrs r (Scenario.a_stat Scenario.S_IFREG_644)), s1) /\
  getattr "/a" s1 = (Ret (attrs r (Scenario.a_stat Scenario.S_IFREG_644)), s1).
Proof.
  intros s r s1.
  assert (E : permissions s !! "/a"%string = None) by reflexivity.
  assert (L : (lstat_src "/a" s).1 = Ret (Scenario.a_stat Scenario.S_IFREG_644))
    by reflexivity.
  split; [exact E|]. split; [exact L|].
  destruct (getattr_lazy_default "/a" s _ E L) as (_ & _ & H1 & H2 & _).
  split; [exact H1 | exact H2].
Defined.

Lemma chmod_chown_commute_witness :
  let s := Scenario.mounted Scenario.populated ∅ in
  let r := {| uid := 42; gid := 42; mode := 384 |} in
  permissions s !! "/a"%string = None /\
  (lstat_src "/a" s).1 = Ret (Scenario.a_stat Scenario.S_IFREG_644) /\
  permissions (chown "/a" 42 42 (chmod "/a" 384 s).2).2 !! "/a"%string = Some r /\
  (chown "/a" 42 42 (chmod "/a" 384 s).2).2 = (chmod "/a" 384 (chown "/a" 42 42 s).2).2.
Proof.
  intros s r.
  assert (E : permissions s !! "/a"%string = None) by reflexivity.
  assert (L : (lstat_src "/a" s).1 = Ret (Scenario.a_stat Scenario.S_IFREG_644))
    by reflexivity.
  split; [exact E|]. split; [exact L|].
  destruct (chmod_chown_commute "/a" s _ 384 42 42 E L) as (H1 & H2 & _ & _ & H3).
  rewrite H1, H2. split; [exact H3 | reflexivity].
Defined.

Lemma destroy_prunes_trivial_defaults_witness :
  let s := Scenario.mounted Scenario.populated Scenario.overlay in
  records_resolve s /\
  sidecar_writable (real s) (src_path s) /\
  exists final_perms w',
    destroy JsonText.dumps Scenario.written s = (Ret tt, set_real s w') /\
    read_text w' (sidecar_path (src_path s)) = Ret (JsonText.dumps final_perms) /\
    final_perms !! "/a"%string = Some {| uid := 42; gid := 42; mode := 384 |} /\
    final_perms !! "/"%string = None /\
    final_perms !! "/rel"%string = None.
Proof.
  intros s.
  assert (Hres : records_resolve s)
    by (apply records_resolve_check; vm_compute; reflexivity).
  assert (Hw : sidecar_writable (real s) (src_path s)).
  { right. split; [|vm_compute; reflexivity].
    exists ["srv"; "data"]%string, (Scenario.a_stat Scenario.S_IFDIR_755).
    vm_compute; reflexivity. }
  split; [exact Hres|]. split; [exact Hw|].
  destruct (destroy_prunes_trivial_defaults JsonText.dumps Scenario.written s Hres Hw)
    as (final_perms & w' & Hd & Hr & _ & Hrec).
  exists final_perms, w'. split; [exact Hd|]. split; [exact Hr|].
  split; [|split].
  - destruct (Hrec "/a"%string {| uid := 42; gid := 42; mode := 384 |}
                (Scenario.a_stat Scenario.S_IFREG_644)) as [_ H];
      [vm_compute; reflexivity | vm_compute; reflexivity |].
    apply H. intros (Hu & _). discriminate Hu.
  - destruct (Hrec "/"%string {| uid := 0; gid := 0; mode := Scenario.S_IFDIR_755 |}
                (Scenario.a_stat Scenario.S_IFDIR_755)) as [H _];
      [vm_compute; reflexivity | vm_compute; reflexivity |].
    apply H. repeat split.
  - destruct (Hrec "/rel"%string {| uid := 0; gid := 0; mode := Scenario.S_IFLNK_777 |}
                (Scenario.a_stat Scenario.S_IFLNK_777)) as [H _];
      [vm_compute; reflexivity | vm_compute; reflexivity |].
    apply H. repeat split.
Defined.

Lemma nontrivial_store_round_trip_witness :
  let s := Scenario.mounted Scenario.populated Scenario.overrides in
  records_resolve s /\
  (forall path r, permissions s !! path = Some r -> trivial_default s path r = false) /\
  sidecar_writable (real s) (src_path s) /\
  JsonText.loads (JsonText.dumps (permissions s)) = Some (permissions s) /\
  exists w',
    destroy JsonText.dumps Scenario.written s = (Ret tt, set_real s w') /\
    __init__ JsonText.loads w' Scenario.src = Ret (Scenario.mounted w' Scenario.overrides).
Proof.
  intros s.
  assert (Hres : records_resolve s)
    by (apply records_resolve_check; vm_compute; reflexivity).
  assert (Hnt : forall path r, permissions s !! path = Some r ->
                               trivial_default s path r = false)
    by (apply none_trivial_check; vm_compute; reflexivity).
  assert (Hw : sidecar_writable (real s) (src_path s)).
  { right. split; [|vm_compute; reflexivity].
    exists ["srv"; "data"]%string, (Scenario.a_stat Scenario.S_IFDIR_755).
    vm_compute; reflexivity. }
  assert (Hc : JsonText.loads (JsonText.dumps (permissions s)) = Some (permissions s))
    by (vm_compute; reflexivity).
  split; [exact Hres|]. split; [exact Hnt|]. split; [exact Hw|]. split; [exact Hc|].
  destruct (nontrivial_store_round_trip JsonText.loads JsonText.dumps
              Scenario.written s Hres Hnt Hw Hc) as (w' & Hd & _ & Hi).
  exists w'. split; [exact Hd | exact Hi].
Defined.

Lemma init_loads_or_fails_witness :
  path_exists Scenario.fresh (sidecar_path Scenario.src) = false /\
  __init__ JsonText.loads Scenario.fresh Scenario.src
    = Ret (Scenario.mounted Scenario.fresh ∅) /\
  read_text Scenario.corrupt (sidecar_path Scenario.src) = Ret "{oops"%string /\
  JsonText.loads "{oops" = None /\
  __init__ JsonText.loads Scenario.corrupt Scenario.src = Raise JSONDecodeError.
Proof.
  assert (H1 : path_exists Scenario.fresh (sidecar_path Scenario.src) = false)
    by (vm_compute; reflexivity).
  assert (H2 : read_text Scenario.corrupt (sidecar_path Scenario.src)
               = Ret "{oops"%string) by (vm_compute; reflexivity).
  assert (H3 : JsonText.loads "{oops" = None) by (vm_compute; reflexivity).
  split; [exact H1|]. split.
  - exact (proj1 (init_loads_or_fails JsonText.loads Scenario.fresh Scenario.src) H1).
  - split; [exact H2|]. split; [exact H3|].
    exact (proj2 (init_loads_or_fails JsonText.loads Scenario.corrupt Scenario.src)
                 _ H2 H3).
Defined.

Lemma readlink_rescopes_absolute_targets_witness :
  let s := Scenario.mounted Scenario.populated ∅ in
  (get_src_path "/root" s).1 = Ret "/srv/data/root"%string /\
  os_readlink (real s) "/srv/data/root" = Ret "/srv/data"%string /\
  startswith_sep (cwd (real s)) = true /\
  readlink "/root" s = (Ret "."%string, s) /\
  readlink "/etc" s = (Ret "../../etc/passwd"%string, s) /\
  readlink "/rel" s = (Ret "a"%string, s).
Proof.
  intros s.
  assert (H1 : (get_src_path "/root" s).1 = Ret "/srv/data/root"%string) by reflexivity.
  assert (H2 : os_readlink (real s) "/srv/data/root" = Ret "/srv/data"%string)
    by (vm_compute; reflexivity).
  assert (H3 : startswith_sep (cwd (real s)) = true) by reflexivity.
  split; [exact H1|]. split; [exact H2|]. split; [exact H3|].
  split; [|split].
  - destruct (readlink_rescopes_absolute_targets s "/root" _ _ H1 H2 H3) as [Habs _].
    destruct (Habs eq_refl) as (Hr & _ & _ & Hdot).
    rewrite Hr, (Hdot eq_refl). reflexivity.
  - assert (G1 : (get_src_path "/etc" s).1 = Ret "/srv/data/etc"%string) by reflexivity.
    assert (G2 : os_readlink (real s) "/srv/data/etc" = Ret "/etc/passwd"%string)
      by (vm_compute; reflexivity).
    destruct (readlink_rescopes_absolute_targets s "/etc" _ _ G1 G2 H3) as [Habs _].
    destruct (Habs eq_refl) as (Hr & _). rewrite Hr. reflexivity.
  - assert (G1 : (get_src_path "/rel" s).1 = Ret "/srv/data/rel"%string) by reflexivity.
    assert (G2 : os_readlink (real s) "/srv/data/rel" = Ret "a"%string)
      by (vm_compute; reflexivity).
    destruct (readlink_rescopes_absolute_targets s "/rel" _ _ G1 G2 H3) as [_ Hrel].
    apply Hrel; [discriminate | reflexivity].
Defined.

Lemma destroy_fails_on_missing_file_witness :
  let s := Scenario.after_unlink in
  permissions s !! "/a"%string
    = Some {| uid := 0; gid := 0; mode := Scenario.S_IFREG_644 |} /\
  (lstat_src "/a" s).1 = Raise FileNotFoundError /\
  permissions s !! EmptyString = None /\
  destroy JsonText.dumps Scenario.written s = (Raise FileNotFoundError, s).
Proof.
  intros s.
  assert (H1 : permissions s !! "/a"%string
               = Some {| uid := 0; gid := 0; mode := Scenario.S_IFREG_644 |})
    by (vm_compute; reflexivity).
  assert (H2 : (lstat_src "/a" s).1 = Raise FileNotFoundError)
    by (vm_compute; reflexivity).
  assert (H3 : permissions s !! EmptyString = None) by (vm_compute; reflexivity).
  split; [exact H1|]. split; [exact H2|]. split; [exact H3|].
  exact (destroy_fails_on_missing_file JsonText.dumps Scenario.written s _ _ H1 H2 H3).
Defined.

Lemma first_mount_of_empty_source_witness :
  let qs := [Getattr "/"; Readdir "/"; Readlink "/"; Getattr "/nothing"]%string in
  let s0 := Scenario.mounted Scenario.fresh ∅ in
  lnode Scenario.fresh Scenario.src
    = Ret (["srv"; "data"]%string, Dir (Scenario.a_stat Scenario.S_IFDIR_755)) /\
  listdir Scenario.fresh Scenario.src = Ret [] /\
  __init__ JsonText.loads Scenario.fresh Scenario.src = Ret s0 /\
  exists w',
    destroy JsonText.dumps Scenario.written (session qs s0)
      = (Ret tt, set_real (session qs s0) w') /\
    read_text w' (sidecar_path Scenario.src) = Ret "{}"%string.
Proof.
  intros qs s0.
  assert (H1 : lnode Scenario.fresh Scenario.src
               = Ret (["srv"; "data"]%string, Dir (Scenario.a_stat Scenario.S_IFDIR_755)))
    by (vm_compute; reflexivity).
  assert (H2 : listdir Scenario.fresh Scenario.src = Ret [])
    by (vm_compute; reflexivity).
  split; [exact H1|]. split; [exact H2|].
  destruct (first_mount_of_empty_source JsonText.loads JsonText.dumps
              Scenario.written _ _ _ _ qs H1 H2) as (_ & Hi & _ & w' & Hd & _ & Hr).
  split; [exact Hi|]. exists w'. split; [exact Hd | exact Hr].
Defined.


(** * Further properties

    Properties of the same operations outside the ones above, and of
    [symlink] and [access]. *)

(** *** Path translation *)

Lemma walk_without_pardir (stack comps : list string) :
  pardir ∉ comps ->
  walk stack comps =
  rev (filter (fun c => c <> EmptyString /\ c <> curdir) comps) ++ stack.
Proof.
  revert stack. induction comps as [|c comps IH]; intros stack H; [done|].
  apply not_elem_of_cons in H as [Hc H]. simpl.
  case_bool_decide as H1.
  - simpl. rewrite filter_cons_False by (intros [? _]; done). by apply IH.
  - case_bool_decide as H2; simpl.
    + rewrite filter_cons_False by (intros [_ ?]; done). by apply IH.
    + rewrite bool_decide_eq_false_2 by done.
      rewrite filter_cons_True by done. simpl.
      rewrite IH by done. by rewrite <- app_assoc.
Qed.

(** X1. A virtual path [/rest] whose rest has no leading slash and no
    [..] component is translated to a real path under the source root:
    the name it resolves to is the name of the source root followed by
    the components of [rest], empty ones and [.] dropped. *)
Theorem get_src_path_stays_under_source_root (s : state) (rest : string) :
  src_path s <> EmptyString ->
  startswith_sep rest = false ->
  pardir ∉ split_sep rest ->
  exists rp,
    get_src_path (String sep rest) s = (Ret rp, s) /\
    key_of (real s) rp = key_of (real s) (src_path s) ++ kept_components rest.
Proof.
  intros Hsrc Hrel Hup. exists (join (src_path s) rest). split; [done|].
  rewrite key_of_join by done. unfold resolve_from. rewrite Hrel.
  rewrite walk_without_pardir by done.
  by rewrite rev_app_distr, !rev_involutive.
Qed.

(** X2. A virtual path with a second leading slash leaves the source
    root: [get_src_path] returns what follows the first slash as it is,
    an absolute path, and [lstat] is then taken of that path. *)
Theorem get_src_path_second_slash_leaves_source (s : state) (rest : string) :
  startswith_sep rest = true ->
  get_src_path (String sep rest) s = (Ret rest, s) /\
  (lstat_src (String sep rest) s).1 = lstat (real s) rest.
Proof.
  intros H. unfold lstat_src, get_src_path, bind, gets, ret, os_call. simpl.
  unfold join. by rewrite H.
Qed.

(** *** The store under [chmod], [chown] and [getattr] *)

Lemma chmod_always_succeeds_aux (path : string) (m : Z) (s : state) :
  exists r,
    chmod path m s =
      (Ret tt, set_permissions s (<[path := r]> (permissions s))) /\
    mode r = m.
Proof.
  destruct (permissions s !! path) as [r0|] eqn:E.
  - rewrite (chmod_seen _ _ _ _ E). by eexists.
  - rewrite (chmod_fresh _ _ _ E). by eexists.
Qed.

(** X3. [chmod] never raises: for every path, with or without a real
    file or a record, it returns, changes nothing but the record of the
    path and leaves it with the given mode, the owner being the one of
    the record that was there, 0/0 without one. *)
Theorem chmod_always_succeeds (path : string) (m : Z) (s : state) :
  exists r,
    chmod path m s =
      (Ret tt, set_permissions s (<[path := r]> (permissions s))) /\
    mode r = m /\
    (uid r, gid r) = match permissions s !! path with
                     | Some r0 => (uid r0, gid r0)
                     | None => (0, 0)
                     end.
Proof.
  destruct (permissions s !! path) as [r0|] eqn:E.
  - rewrite (chmod_seen _ _ _ _ E). by eexists.
  - rewrite (chmod_fresh _ _ _ E). by eexists.
Qed.


(** X5. Where the path has a record, [chmod] and [chown] commute and
    need no real file: both orders return and leave the record with the
    mode of [chmod] and the owner of [chown]. *)
Theorem chmod_chown_commute_on_record
    (path : string) (m u g : Z) (s : state) (r : perms) :
  permissions s !! path = Some r ->
  let s' := set_permissions s
              (<[path := {| uid := u; gid := g; mode := m |}]> (permissions s)) in
  chown path u g (chmod path m s).2 = (Ret tt, s') /\
  chmod path m (chown path u g s).2 = (Ret tt, s').
Proof.
  intros E s'. rewrite (chmod_seen _ _ _ _ E), (chown_seen _ _ _ _ _ E). simpl.
  split.
  - erewrite chown_seen by apply lookup_insert_eq. simpl.
    by rewrite set_permissions_twice, insert_insert_eq.
  - erewrite chmod_seen by apply lookup_insert_eq. simpl.
    by rewrite set_permissions_twice, insert_insert_eq.
Qed.

(** X6. The last call wins: [chmod] after [chmod], and [chown] after
    [chown], on the same path give what the second call alone gives,
    outcome and state. *)
Theorem last_write_wins (path : string) (m1 m2 u1 g1 u2 g2 : Z) (s : state) :
  chmod path m2 (chmod path m1 s).2 = chmod path m2 s /\
  chown path u2 g2 (chown path u1 g1 s).2 = chown path u2 g2 s.
Proof.
  destruct (permissions s !! path) as [r|] eqn:E; split.
  - rewrite !(chmod_seen _ _ _ _ E). simpl.
    erewrite chmod_seen by apply lookup_insert_eq. simpl.
    by rewrite set_permissions_twice, insert_insert_eq.
  - rewrite !(chown_seen _ _ _ _ _ E). simpl.
    erewrite chown_seen by apply lookup_insert_eq. simpl.
    by rewrite set_permissions_twice, insert_insert_eq.
  - rewrite !(chmod_fresh _ _ _ E). simpl.
    erewrite chmod_seen by apply lookup_insert_eq. simpl.
    by rewrite set_permissions_twice, insert_insert_eq.
  - rewrite !(chown_fresh _ _ _ _ E).
    destruct (lstat_src path s).1 as [stats|e] eqn:L; simpl.
    + erewrite chown_seen by apply lookup_insert_eq. simpl.
      by rewrite set_permissions_twice, insert_insert_eq.
    + by rewrite (chown_fresh _ _ _ _ E), L.
Qed.

Lemma getattr_state (path : string) (s : state) :
  (getattr path s).2 = s \/
  exists r, (getattr path s).2 = set_permissions s (<[path := r]> (permissions s)).
Proof.
  destruct (lstat_src path s).1 as [stats|e] eqn:L.
  - destruct (permissions s !! path) as [r|] eqn:E.
    + left. by rewrite (getattr_seen _ _ _ _ E L).
    + right. rewrite (getattr_fresh _ _ _ E L). by eexists.
  - left. by rewrite (getattr_missing _ _ _ L).
Qed.

(** X7. [chmod], [chown] and [getattr] on a path leave the records of
    all other paths as they are. *)
Theorem other_records_untouched
    (path other : string) (m u g : Z) (s : state) :
  other <> path ->
  permissions (chmod path m s).2 !! other = permissions s !! other /\
  permissions (chown path u g s).2 !! other = permissions s !! other /\
  permissions (getattr path s).2 !! other = permissions s !! other.
Proof.
  intros Hne. split; [|split].
  - destruct (chmod_always_succeeds_aux path m s) as (r & -> & _).
    simpl. by rewrite lookup_insert_ne.
  - destruct (permissions s !! path) as [r|] eqn:E.
    + rewrite (chown_seen _ _ _ _ _ E). simpl. by rewrite lookup_insert_ne.
    + rewrite (chown_fresh _ _ _ _ E). destruct (lstat_src path s).1; [|done].
      simpl. by rewrite lookup_insert_ne.
  - destruct (getattr_state path s) as [->|[r ->]]; [done|].
    simpl. by rewrite lookup_insert_ne.
Qed.

(** X8. [getattr] reports what was set: after [chmod path m] the
    bundle of [path] has mode [m], after [chown path u g] it has owner
    [u]/[g], and in both the fields that are not emulated are those of
    the real file. *)
Theorem getattr_reports_overrides
    (path : string) (m u g : Z) (s : state) (stats : stat_result) :
  (lstat_src path s).1 = Ret stats ->
  (exists r, getattr path (chmod path m s).2
               = (Ret (attrs r stats), (chmod path m s).2) /\ mode r = m) /\
  (exists r, getattr path (chown path u g s).2
               = (Ret (attrs r stats), (chown path u g s).2) /\
             uid r = u /\ gid r = g).
Proof.
  intros L. split.
  - destruct (chmod_always_succeeds_aux path m s) as (r & -> & Hm). simpl.
    exists r. split; [|done]. apply getattr_seen; [apply lookup_insert_eq|].
    by rewrite lstat_src_frame.
  - destruct (permissions s !! path) as [r0|] eqn:E.
    + rewrite (chown_seen _ _ _ _ _ E). simpl.
      exists {| uid := u; gid := g; mode := mode r0 |}. split; [|done].
      apply getattr_seen; [apply lookup_insert_eq|]. by rewrite lstat_src_frame.
    + rewrite (chown_fresh _ _ _ _ E), L. simpl.
      exists {| uid := u; gid := g; mode := st_mode stats |}. split; [|done].
      apply getattr_seen; [apply lookup_insert_eq|]. by rewrite lstat_src_frame.
Qed.

(** *** Records outlive their files *)

Section Stale.
Variable json_dump : gmap string perms -> string.
Variable stat_after_write : option stat_result -> string -> stat_result.

Lemma destroy_raises (s : state) (path : string) (r : perms) :
  permissions s !! path = Some r ->
  (lstat_src path s).1 = Raise FileNotFoundError ->
  permissions s !! EmptyString = None ->
  destroy json_dump stat_after_write s = (Raise FileNotFoundError, s).
Proof.
  intros E L Hkeys. unfold destroy, bind, gets.
  rewrite (destroy_loop_raises s _ ∅ FileNotFoundError); [done| |].
  - apply Exists_exists. exists (path, r). split; [|done].
    by apply elem_of_map_to_list.
  - apply Forall_forall. intros [p q] Hin. apply elem_of_map_to_list in Hin.
    simpl. destruct (lstat_src p s).1 as [stats|e] eqn:Lp; [eauto|].
    right. destruct (lstat_src_raises _ _ _ Lp) as [[-> _]|[_ ->]]; [congruence|done].
Qed.

(** X9. [chmod] on a path whose real file is missing returns and
    plants a record that makes the next [destroy] raise
    [FileNotFoundError], the sidecar not being written. *)
Theorem chmod_on_missing_file_breaks_destroy
    (path : string) (m : Z) (s : state) :
  (lstat_src path s).1 = Raise FileNotFoundError ->
  permissions s !! EmptyString = None ->
  let s' := (chmod path m s).2 in
  (chmod path m s).1 = Ret tt /\
  destroy json_dump stat_after_write s' = (Raise FileNotFoundError, s').
Proof.
  intros L Hkeys s'. unfold s'.
  destruct (chmod_always_succeeds_aux path m s) as (r & -> & _). simpl.
  split; [done|].
  assert (path <> EmptyString).
  { destruct (lstat_src_raises _ _ _ L) as [[_ ?]|[? _]]; done. }
  apply (destroy_raises _ path r).
  - apply lookup_insert_eq.
  - by rewrite lstat_src_frame.
  - simpl. by rewrite lookup_insert_ne.
Qed.

Lemma unlink_inv (path : string) (s s' : state) :
  unlink path s = (Ret tt, s') ->
  exists rp k,
    (get_src_path path s).1 = Ret rp /\
    rp <> EmptyString /\ k = key_of (real s) rp /\
    s' = set_real s (set_disk (real s) (delete k (disk (real s)))).
Proof.
  unfold unlink, bind, os_effect, os_unlink.
  pose proof (get_src_path_state path s) as Hs.
  destruct (get_src_path path s) as [[rp|e] s1]; simpl in *; subst s1; [|done].
  unfold lnode. case_bool_decide as Hrp; [done|].
  destruct (disk (real s) !! key_of (real s) rp) as [[| |]|] eqn:E;
    try done; intros [= <-]; by eexists _, _.
Qed.

(** X10. [unlink] removes the real file and not the record: after a
    successful [unlink] the store is what it was, [getattr] of the path
    raises [FileNotFoundError], and when the path had a record [destroy]
    raises [FileNotFoundError] without writing the sidecar. *)
Theorem unlink_leaves_record_behind (path : string) (s s' : state) :
  unlink path s = (Ret tt, s') ->
  permissions s' = permissions s /\
  getattr path s' = (Raise FileNotFoundError, s') /\
  (forall r, permissions s !! path = Some r ->
             permissions s !! EmptyString = None ->
             destroy json_dump stat_after_write s'
               = (Raise FileNotFoundError, s')).
Proof.
  intros H. destruct (unlink_inv _ _ _ H) as (rp & k & Hrp & Hne & -> & ->).
  assert (L : (lstat_src path
                 (set_real s (set_disk (real s)
                    (delete (key_of (real s) rp) (disk (real s)))))).1
              = Raise FileNotFoundError).
  { unfold lstat_src, bind, os_call.
    destruct path as [|c rest]; [done|]. simpl in *. injection Hrp as <-.
    unfold lstat, lnode. rewrite bool_decide_eq_false_2 by done.
    rewrite key_of_set_disk, disk_set_disk. by rewrite lookup_delete_eq. }
  split; [done|]. split.
  - by apply getattr_missing.
  - intros r E Hkeys. by apply (destroy_raises _ path r).
Qed.

End Stale.

(** X11. A file that reappears at a path removed with [unlink]
    inherits the record the path had: whatever the real filesystem has
    become, [getattr] reports the mode and owner of the old record with
    the other fields of the new file. *)
Theorem recreated_file_inherits_record
    (path : string) (s s' : state) (r : perms) (w2 : world) (stats2 : stat_result) :
  unlink path s = (Ret tt, s') ->
  permissions s !! path = Some r ->
  (lstat_src path (set_real s' w2)).1 = Ret stats2 ->
  getattr path (set_real s' w2) = (Ret (attrs r stats2), set_real s' w2).
Proof.
  intros H E L. destruct (unlink_inv _ _ _ H) as (rp & k & _ & _ & _ & ->).
  by apply getattr_seen.
Qed.

(** X12. The mode [getattr] stores on first sight is not refreshed:
    when the real mode changes afterwards, [getattr] still reports the
    mode first seen, and [destroy] would persist that record, which is no
    longer a trivial default. *)
Theorem lazy_default_freezes_mode
    (path : string) (s : state) (stats1 stats2 : stat_result) (w2 : world) :
  permissions s !! path = None ->
  (lstat_src path s).1 = Ret stats1 ->
  let s1 := (getattr path s).2 in
  let s2 := set_real s1 w2 in
  (lstat_src path s2).1 = Ret stats2 ->
  st_mode stats2 <> st_mode stats1 ->
  let r := {| uid := 0; gid := 0; mode := st_mode stats1 |} in
  getattr path s2 = (Ret (attrs r stats2), s2) /\
  pruned s2 !! path = Some r.
Proof.
  intros E L s1 s2 L2 Hne r.
  assert (E2 : permissions s2 !! path = Some r).
  { unfold s2, s1. rewrite (getattr_fresh _ _ _ E L). apply lookup_insert_eq. }
  split; [by apply getattr_seen|].
  rewrite pruned_lookup, E2. unfold trivial_default. rewrite L2.
  rewrite bool_decide_eq_false_2; [done|]. intros (_ & _ & H). simpl in H. congruence.
Qed.

(** *** What [destroy] writes *)

Lemma destroy_loop_state (s : state) (items : list (string * perms)) acc :
  (destroy_loop items acc s).2 = s.
Proof.
  revert acc. induction items as [|[path r] items IH]; intros acc; [done|].
  simpl. unfold bind at 1. rewrite (lstat_src_eq path s).
  destruct (lstat_src path s).1; [|done]. destruct (_ && _); apply IH.
Qed.

Section DestroyWrites.
Variable json_load : string -> option (gmap string perms).
Variable json_dump : gmap string perms -> string.
Variable stat_after_write : option stat_result -> string -> stat_result.

Lemma write_text_cases (w w' : world) (p data : string) :
  write_text stat_after_write w p data = Ret w' ->
  exists k,
    snode w p = Ret (k, disk w !! k) /\
    ((exists st old, disk w !! k = Some (File st old) /\
        w' = set_disk w (<[k := File (stat_after_write (Some st) data) data]> (disk w)))
     \/ (disk w !! k = None /\
         w' = set_disk w (<[k := File (stat_after_write None data) data]> (disk w)))).
Proof.
  unfold write_text. destruct (snode w p) as [[k on]|] eqn:Sn; [|done].
  assert (on = disk w !! k) as ->.
  { unfold snode in Sn. case_bool_decide; [done|].
    destruct (follow _ _ _); by inversion Sn. }
  destruct (disk w !! k) as [[st d| |]|] eqn:E; try done.
  - intros [= <-]. exists k. rewrite E. split; [done|]. left. by eexists _, _.
  - destruct k; [done|]. destruct (disk w !! removelast _) as [[| |]|]; try done.
    intros [= <-]. eexists. rewrite E. split; [done|]. by right.
Qed.

(** X13. [destroy] changes no more than one name of the real
    filesystem, the one the sidecar path leads to, and neither the store,
    the source root nor the current directory; this holds whether it
    returns or raises. *)
Theorem destroy_touches_only_the_sidecar (s : state) :
  let s' := (destroy json_dump stat_after_write s).2 in
  permissions s' = permissions s /\
  src_path s' = src_path s /\
  cwd (real s') = cwd (real s) /\
  forall k, disk (real s') !! k <> disk (real s) !! k ->
            snode (real s) (sidecar_path (src_path s))
              = Ret (k, disk (real s) !! k).
Proof.
  unfold destroy, bind, gets.
  pose proof (destroy_loop_state s (map_to_list (permissions s)) ∅) as Hs.
  destruct (destroy_loop _ _ s) as [[final|e] s1]; simpl in Hs; subst s1;
    [|by repeat split].
  unfold os_effect. fold (sidecar_path (src_path s)).
  destruct (write_text _ _ _ _) as [w'|e] eqn:W; [|by repeat split].
  destruct (write_text_cases _ _ _ _ W) as (k & Sn & [(st & old & E & ->)|[E ->]]);
    simpl; repeat split; intros k' Hk';
    (destruct (decide (k' = k)) as [->|Hne];
     [done | by rewrite lookup_insert_ne in Hk']).
Qed.

Hypothesis overwrite_keeps_mode :
  forall st data, st_mode (stat_after_write (Some st) data) = st_mode st.

Lemma write_keeps_modes (w w' : world) (p data q : string) (st : stat_result) :
  write_text stat_after_write w p data = Ret w' ->
  lstat w q = Ret st ->
  exists st', lstat w' q = Ret st' /\ st_mode st' = st_mode st.
Proof.
  intros W. destruct (write_text_cases _ _ _ _ W) as (k & _ & Hcase).
  unfold lstat, lnode. case_bool_decide; [done|].
  destruct (disk w !! key_of w q) as [n|] eqn:E; [|done]. intros [= <-].
  destruct Hcase as [(st0 & old & E0 & ->)|[E0 ->]];
    rewrite key_of_set_disk, disk_set_disk;
    (destruct (decide (key_of w q = k)) as [Hk|Hk];
     [rewrite Hk in *; rewrite lookup_insert_eq
     | rewrite lookup_insert_ne, E by done; by eexists]).
  - simplify_eq. eexists. split; [done|]. simpl. apply overwrite_keeps_mode.
  - congruence.
Qed.

Lemma write_keeps_lstat_src (s : state) (w' : world) (p data path : string)
    (st : stat_result) :
  write_text stat_after_write (real s) p data = Ret w' ->
  (lstat_src path s).1 = Ret st ->
  exists st', (lstat_src path (set_real s w')).1 = Ret st' /\
              st_mode st' = st_mode st.
Proof.
  intros W. unfold lstat_src, bind, os_call.
  destruct path as [|c rest]; [done|]. simpl. intros L.
  by apply (write_keeps_modes _ _ _ _ _ _ W).
Qed.

Lemma write_keeps_pruned (s : state) (w' : world) (p data : string) :
  records_resolve s ->
  write_text stat_after_write (real s) p data = Ret w' ->
  records_resolve (set_real s w') /\ pruned (set_real s w') = pruned s.
Proof.
  intros Hres W. split.
  - intros path r E. destruct (Hres path r E) as [st L].
    destruct (write_keeps_lstat_src _ _ _ _ _ _ W L) as (st' & ? & _). eauto.
  - apply map_eq. intros path. rewrite !pruned_lookup. simpl.
    destruct (permissions s !! path) as [r|] eqn:E; [|done].
    destruct (Hres path r E) as [st L].
    destruct (write_keeps_lstat_src _ _ _ _ _ _ W L) as (st' & L' & Hm).
    unfold trivial_default. by rewrite L, L', Hm.
Qed.

(** X14. Unmounting twice writes the same sidecar: when overwriting a
    file keeps its mode, a second [destroy] right after a successful one
    succeeds too and the sidecar holds the same text. *)
Theorem destroy_twice_same_sidecar (s : state) :
  records_resolve s ->
  sidecar_writable (real s) (src_path s) ->
  exists w1 w2,
    destroy json_dump stat_after_write s = (Ret tt, set_real s w1) /\
    destroy json_dump stat_after_write (set_real s w1)
      = (Ret tt, set_real s w2) /\
    read_text w1 (sidecar_path (src_path s)) = Ret (json_dump (pruned s)) /\
    read_text w2 (sidecar_path (src_path s)) = Ret (json_dump (pruned s)).
Proof.
  intros Hres Hw.
  destruct (destroy_writes_pruned json_dump stat_after_write s Hres Hw)
    as (w1 & Hd1 & _ & Hr1).
  assert (W : write_text stat_after_write (real s) (sidecar_path (src_path s))
                (json_dump (pruned s)) = Ret w1).
  { rewrite (destroy_resolved _ _ _ Hres) in Hd1. unfold os_effect in Hd1.
    destruct (write_text _ _ _ _); [|done]. by injection Hd1 as ->. }
  destruct (write_keeps_pruned _ _ _ _ Hres W) as [Hres1 Hp1].
  destruct (destroy_writes_pruned json_dump stat_after_write (set_real s w1) Hres1)
    as (w2 & Hd2 & _ & Hr2).
  { left. simpl. eauto. }
  exists w1, w2. simpl in *. rewrite Hp1 in Hr2. done.
Qed.

(** X15. Pruning loses nothing that [getattr] shows: after [destroy]
    and a new [__init__] the store is the pruned one, and every path on
    which [getattr] returned before the unmount gets the same mode, uid
    and gid after the remount (overwriting a file keeps its mode, and the
    codec reads back the pruned mapping). *)
Theorem remount_keeps_what_getattr_reports
    (s : state) (path : string) (a : stat_result) :
  records_resolve s ->
  sidecar_writable (real s) (src_path s) ->
  json_load (json_dump (pruned s)) = Some (pruned s) ->
  (getattr path s).1 = Ret a ->
  exists w' s0 a',
    destroy json_dump stat_after_write s = (Ret tt, set_real s w') /\
    __init__ json_load w' (src_path s) = Ret s0 /\
    permissions s0 = pruned s /\
    (getattr path s0).1 = Ret a' /\
    st_mode a' = st_mode a /\ st_uid a' = st_uid a /\ st_gid a' = st_gid a.
Proof.
  intros Hres Hw Hcodec Ha.
  destruct (destroy_writes_pruned json_dump stat_after_write s Hres Hw)
    as (w' & Hd & He & Hr).
  assert (W : write_text stat_after_write (real s) (sidecar_path (src_path s))
                (json_dump (pruned s)) = Ret w').
  { rewrite (destroy_resolved _ _ _ Hres) in Hd. unfold os_effect in Hd.
    destruct (write_text _ _ _ _); [|done]. by injection Hd as ->. }
  pose proof (init_reads_sidecar json_load _ _ _ _ He Hr Hcodec) as Hi.
  set (s0 := {| real := w'; src_path := src_path s; permissions := pruned s |}) in *.
  destruct (lstat_src path s).1 as [stats|e] eqn:L;
    [|by rewrite (getattr_missing _ _ _ L) in Ha].
  destruct (write_keeps_lstat_src _ _ _ _ _ _ W L) as (stats' & L' & Hm).
  assert (L0 : (lstat_src path s0).1 = Ret stats').
  { change s0 with (set_permissions (set_real s w') (pruned s)).
    by rewrite lstat_src_frame. }
  assert (Hp : permissions s0 !! path = pruned s !! path) by done.
  rewrite pruned_lookup in Hp. unfold trivial_default in Hp. rewrite L in Hp.
  destruct (permissions s !! path) as [r|] eqn:E.
  - rewrite (getattr_seen _ _ _ _ E L) in Ha. simpl in Ha. injection Ha as <-.
    case_bool_decide as Ht.
    + destruct Ht as (Hu & Hg & Hmo).
      exists w', s0, (attrs {| uid := 0; gid := 0; mode := st_mode stats' |} stats').
      rewrite (getattr_fresh _ _ _ Hp L0). simpl.
      repeat split; try done; congruence.
    + exists w', s0, (attrs r stats').
      by rewrite (getattr_seen _ _ _ _ Hp L0).
  - rewrite (getattr_fresh _ _ _ E L) in Ha. simpl in Ha. injection Ha as <-.
    exists w', s0, (attrs {| uid := 0; gid := 0; mode := st_mode stats' |} stats').
    rewrite (getattr_fresh _ _ _ Hp L0). simpl. by repeat split.
Qed.

End DestroyWrites.

(** *** Listing, again *)

Lemma filter_all (x : string) (l : list string) :
  x ∉ l -> filter (fun n => n <> x) l = l.
Proof.
  induction l as [|y l IH]; [done|]. intros H.
  apply not_elem_of_cons in H as [Hne H].
  rewrite filter_cons_True by done. by rewrite IH.
Qed.

Lemma list_remove_filter (x : string) (l : list string) :
  NoDup l -> x ∈ l -> list_remove x l = Ret (filter (fun n => n <> x) l).
Proof.
  induction l as [|y l IH]; [by intros _ ?%elem_of_nil|].
  intros Hnd Hin. apply NoDup_cons in Hnd as [Hy Hnd]. simpl.
  case_bool_decide as Hyx.
  - subst y. rewrite filter_cons_False by (intros ?; done).
    by rewrite filter_all.
  - apply elem_of_cons in Hin as [->|Hin]; [done|].
    rewrite (IH Hnd Hin). by rewrite filter_cons_True.
Qed.

(** X16. When the real root lists the sidecar, [readdir('/')] returns
    [.], [..] and the real names in their order with the sidecar filtered
    out. *)
Theorem readdir_root_filters_sidecar (s : state) (names : list string) :
  real_entries (real s) (join (src_path s) EmptyString) = Ret names ->
  REMAPPER_PERM_FILE ∈ names ->
  readdir "/" s =
    (Ret ("." :: ".." :: filter (fun n => n <> REMAPPER_PERM_FILE) names)%string, s).
Proof.
  intros Hn Hin. pose proof (real_entries_NoDup _ _ _ Hn) as Hnd.
  rewrite readdir_root, Hn. simpl.
  by rewrite (list_remove_filter _ _ Hnd Hin).
Qed.

(** X17. A path other than the root whose real path is not a directory
    (a regular file, or nothing at all) is listed as [.] and [..], without
    an error. *)
Theorem readdir_of_non_directory (path rp : string) (s : state) :
  path <> "/"%string ->
  (get_src_path path s).1 = Ret rp ->
  path_isdir (real s) rp = false ->
  readdir path s = (Ret ["."; ".."]%string, s).
Proof.
  intros Hp Hrp Hd. rewrite (readdir_other _ _ _ Hp Hrp).
  unfold real_entries. by rewrite Hd.
Qed.

Section ListAfterUnmount.
Variable json_dump : gmap string perms -> string.
Variable stat_after_write : option stat_result -> string -> stat_result.

Lemma children_elem (d : gmap (list string) node) (k : list string) (n : string) :
  is_Some (d !! (k ++ [n])) -> n ∈ children d k.
Proof.
  intros [x E]. unfold children. apply list_elem_of_omap. exists (k ++ [n]).
  split; [|apply child_name_last].
  apply list_elem_of_fmap. exists (k ++ [n], x).
  split; [done|]. by apply elem_of_map_to_list.
Qed.

Lemma sidecar_listed_after_write (w w' : world) (src data : string) k st :
  lnode w src = Ret (k, Dir st) ->
  write_text stat_after_write w (sidecar_path src) data = Ret w' ->
  exists names,
    real_entries w' (join src EmptyString) = Ret names /\
    REMAPPER_PERM_FILE ∈ names.
Proof.
  intros Hdir W. destruct (lnode_dir_inv _ _ _ _ Hdir) as (Hsrc & -> & E).
  destruct (write_text_cases _ _ _ _ _ W) as (k & Sn & Hcase).
  assert (Hside : sidecar_path src <> EmptyString) by (by apply join_nonempty).
  assert (F : follow (disk w) MAXSYMLINKS (key_of w (sidecar_path src)) = Ret k).
  { unfold snode in Sn. rewrite bool_decide_eq_false_2 in Sn by done.
    destruct (follow _ _ _); by inversion Sn. }
  (* the node written is not the source directory *)
  assert (Hk : k <> key_of w src).
  { intros ->. destruct Hcase as [(? & ? & E' & _)|[E' _]]; congruence. }
  (* after the write the sidecar's name is taken *)
  assert (Hnew : exists nd, w' = set_disk w (<[k := nd]> (disk w)) /\
                            (forall st t, nd <> Symlink st t)).
  { destruct Hcase as [(? & ? & _ & ->)|[_ ->]]; eexists; split; done. }
  destruct Hnew as (nd & -> & Hnd).
  assert (Hs : is_Some (<[k := nd]> (disk w) !! (key_of w src ++ [REMAPPER_PERM_FILE]))).
  { rewrite <- key_of_sidecar by done.
    destruct (decide (key_of w (sidecar_path src) = k)) as [->|Hne].
    - rewrite lookup_insert_eq. eauto.
    - rewrite lookup_insert_ne by done.
      destruct (disk w !! key_of w (sidecar_path src)) eqn:E'; [eauto|].
      rewrite follow_here in F by (intros ??; congruence). congruence. }
  exists (children (<[k := nd]> (disk w)) (key_of w src)). split.
  - unfold real_entries, path_isdir, listdir, snode.
    rewrite bool_decide_eq_false_2 by (by apply join_root_nonempty).
    rewrite key_of_set_disk, disk_set_disk, key_of_root by done.
    rewrite follow_here by (intros ??; rewrite lookup_insert_ne, E by done; done).
    by rewrite lookup_insert_ne, E by done.
  - by apply children_elem.
Qed.

(** X18. After a successful [destroy] over a source root that is a
    directory, listing the root works: [readdir('/')] returns [.], [..]
    and names without the sidecar. *)
Theorem readdir_root_works_after_unmount (s : state) k st :
  lnode (real s) (src_path s) = Ret (k, Dir st) ->
  records_resolve s ->
  sidecar_writable (real s) (src_path s) ->
  exists w' names,
    destroy json_dump stat_after_write s = (Ret tt, set_real s w') /\
    readdir "/" (set_real s w')
      = (Ret ("." :: ".." :: names)%string, set_real s w') /\
    (REMAPPER_PERM_FILE ∉ names).
Proof.
  intros Hdir Hres Hw.
  destruct (destroy_writes_pruned json_dump stat_after_write s Hres Hw)
    as (w' & Hd & _ & _).
  assert (W : write_text stat_after_write (real s) (sidecar_path (src_path s))
                (json_dump (pruned s)) = Ret w').
  { rewrite (destroy_resolved _ _ _ Hres) in Hd. unfold os_effect in Hd.
    destruct (write_text _ _ _ _); [|done]. by injection Hd as ->. }
  destruct (sidecar_listed_after_write _ _ _ _ _ _ Hdir W) as (names & Hn & Hin).
  destruct (readdir_root_hides_sidecar (set_real s w') names Hn Hin)
    as (rest & Hr & Hnot & _).
  by exists w', rest.
Qed.

End ListAfterUnmount.

(** *** Links, again *)

Lemma commonprefix_len_app (l r : list string) :
  commonprefix_len l (l ++ r) = length l.
Proof.
  induction l as [|x l IH]; simpl; [by destruct r|].
  by rewrite bool_decide_eq_true_2, IH.
Qed.

Lemma commonprefix_len_full (l1 l2 : list string) :
  commonprefix_len l1 l2 = length l1 -> exists r, l2 = l1 ++ r.
Proof.
  revert l2. induction l1 as [|x l1 IH]; intros l2; simpl; [by exists l2|].
  destruct l2 as [|y l2]; [done|]. case_bool_decide as H; [|done].
  intros [= Hl]. destruct (IH _ Hl) as [r ->]. exists r. by subst.
Qed.

(** X19. An absolute link target inside the source root reads as its
    path from the root: the components after those of the source root,
    joined, or [.] for the root itself. *)
Theorem readlink_inside_source
    (s : state) (path rp target : string) (rest : list string) :
  (get_src_path path s).1 = Ret rp ->
  os_readlink (real s) rp = Ret target ->
  startswith_sep (cwd (real s)) = true ->
  startswith_sep target = true ->
  key_of (real s) target = key_of (real s) (src_path s) ++ rest ->
  readlink path s = (Ret (rel_string rest), s).
Proof.
  intros Hrp Ht Hcwd Habs Hin. rewrite (readlink_target _ _ _ _ Hrp Ht).
  destruct target as [|c t]; [done|]. simpl in Habs. rewrite Habs.
  rewrite relpath_unfold, !abspath_components by done. rewrite Hin.
  unfold rel_list. rewrite commonprefix_len_app, Nat.sub_diag. simpl.
  by rewrite drop_app_length.
Qed.

(** X20. An absolute link target outside the source root is rewritten
    to a path that starts with [..]: it climbs out of the root. *)
Theorem readlink_outside_source_climbs
    (s : state) (path rp target : string) :
  (get_src_path path s).1 = Ret rp ->
  os_readlink (real s) rp = Ret target ->
  startswith_sep (cwd (real s)) = true ->
  startswith_sep target = true ->
  (forall rest, key_of (real s) target <> key_of (real s) (src_path s) ++ rest) ->
  exists more, readlink path s = (Ret (sep_join (pardir :: more)), s).
Proof.
  intros Hrp Ht Hcwd Habs Hout. rewrite (readlink_target _ _ _ _ Hrp Ht).
  destruct target as [|c t]; [done|]. simpl in Habs. rewrite Habs.
  rewrite relpath_unfold, !abspath_components by done.
  set (S := key_of (real s) (src_path s)) in *.
  set (T := key_of (real s) (String c t)) in *.
  pose proof (commonprefix_len_le S T) as [Hle _].
  assert (commonprefix_len S T <> length S) as Hlt.
  { intros H. destruct (commonprefix_len_full _ _ H) as [r Hr]. by apply (Hout r). }
  unfold rel_list.
  destruct (length S - commonprefix_len S T)%nat as [|n] eqn:En; [lia|].
  simpl. by eexists.
Qed.

(** *** Passed-through operations *)

Section PassthroughFacts.
Variable stat_after_symlink : string -> stat_result.
Variable os_access : world -> string -> Z -> bool.

Lemma symlink_inv (target source : string) (s s' : state) :
  symlink stat_after_symlink target source s = (Done tt, s') ->
  exists t l,
    (get_src_path target s).1 = Ret t /\
    (get_src_path source s).1 = Ret l /\
    t <> EmptyString /\
    l <> EmptyString /\
    lstat (real s) l = Raise FileNotFoundError /\
    s' = set_real s (set_disk (real s)
           (<[key_of (real s) l := Symlink (stat_after_symlink t) t]>
              (disk (real s)))).
Proof.
  unfold symlink.
  pose proof (get_src_path_state target s) as H1.
  destruct (get_src_path target s) as [[t|e] s1]; simpl in H1; subst s1; [|done].
  pose proof (get_src_path_state source s) as H2.
  destruct (get_src_path source s) as [[l|e] s2]; simpl in H2; subst s2; [|done].
  unfold os_symlink. case_bool_decide as Hl; [done|]. simpl.
  case_bool_decide as Ht; [done|]. simpl.
  destruct (disk (real s) !! key_of (real s) l) eqn:E; [done|].
  destruct (key_of (real s) l) as [|c k] eqn:K; [done|].
  destruct (disk (real s) !! removelast (c :: k)) as [[| |]|]; try done.
  intros [= <-]. exists t, l.
  split; [done|]. split; [done|]. split; [done|]. split; [done|].
  split; [|by rewrite K].
  unfold lstat, lnode. rewrite bool_decide_eq_false_2 by done. by rewrite K, E.
Qed.

(** X21. [symlink] and [readlink] round trip under an absolute source
    root: after [symlink('/rest', source)] succeeded, with [rest] free of
    a leading slash and of [..], [readlink(source)] returns the components
    of [rest] joined (or [.]). *)
Theorem symlink_round_trip_under_absolute_root
    (rest source : string) (s s' : state) :
  symlink stat_after_symlink (String sep rest) source s = (Done tt, s') ->
  startswith_sep (src_path s) = true ->
  startswith_sep (cwd (real s)) = true ->
  startswith_sep rest = false ->
  pardir ∉ split_sep rest ->
  readlink source s' = (Ret (rel_string (kept_components rest)), s').
Proof.
  intros H Hsrc Hcwd Hrel Hup.
  destruct (symlink_inv _ _ _ _ H) as (t & l & Ht & Hl & _ & Hne & Hfree & ->).
  assert (Hs : src_path s <> EmptyString) by (by destruct (src_path s)).
  simpl in Ht. injection Ht as <-.
  rewrite (readlink_target _ source l (join (src_path s) rest)).
  2:{ destruct source as [|c r]; [done|]. exact Hl. }
  2:{ unfold os_readlink, lnode. rewrite bool_decide_eq_false_2 by done.
      simpl. rewrite key_of_set_disk. by rewrite lookup_insert_eq. }
  pose proof (startswith_sep_join_l _ _ Hs Hrel) as Hj. rewrite Hsrc in Hj.
  destruct (join (src_path s) rest) as [|c t'] eqn:J; [done|].
  simpl in Hj. rewrite Hj. rewrite <- J. simpl.
  rewrite relpath_unfold.
  change (cwd (real s)) with
    (cwd (set_disk (real s)
            (<[key_of (real s) l := Symlink (stat_after_symlink (join (src_path s) rest))
                                      (join (src_path s) rest)]> (disk (real s))))).
  rewrite !abspath_components by done. rewrite !key_of_set_disk.
  rewrite key_of_join by done. unfold resolve_from. rewrite Hrel.
  rewrite walk_without_pardir by done.
  rewrite rev_app_distr, !rev_involutive.
  unfold rel_list. rewrite commonprefix_len_app, Nat.sub_diag. simpl.
  by rewrite drop_app_length.
Qed.

Lemma chmod_real (path : string) (m : Z) (s : state) :
  real (chmod path m s).2 = real s /\ src_path (chmod path m s).2 = src_path s.
Proof. by destruct (chmod_always_succeeds_aux path m s) as (r & -> & _). Qed.

Lemma chown_real (path : string) (u g : Z) (s : state) :
  real (chown path u g s).2 = real s /\ src_path (chown path u g s).2 = src_path s.
Proof.
  destruct (permissions s !! path) as [r|] eqn:E.
  - by rewrite (chown_seen _ _ _ _ _ E).
  - rewrite (chown_fresh _ _ _ _ E). by destruct (lstat_src path s).1.
Qed.

Lemma access_depends_on_real (path : string) (amode : Z) (s1 s2 : state) :
  real s1 = real s2 -> src_path s1 = src_path s2 ->
  (access os_access path amode s1).1 = (access os_access path amode s2).1.
Proof.
  intros Hr Hp. unfold access, get_src_path, bind, gets, ret, raise.
  destruct path as [|c rest]; [done|]. simpl. rewrite Hr, Hp.
  by destruct (os_access _ _ _).
Qed.

(** X22. [access] answers from the real filesystem alone: a [chmod] or
    [chown] through the overlay, on any path, does not change what it
    returns, and [access] itself changes nothing. *)
Theorem access_ignores_the_overlay
    (path other : string) (amode m u g : Z) (s : state) :
  (access os_access path amode (chmod other m s).2).1
    = (access os_access path amode s).1 /\
  (access os_access path amode (chown other u g s).2).1
    = (access os_access path amode s).1 /\
  (access os_access path amode s).2 = s.
Proof.
  split; [|split].
  - apply access_depends_on_real; apply chmod_real.
  - apply access_depends_on_real; apply chown_real.
  - unfold access. pose proof (get_src_path_state path s) as Hs.
    destruct (get_src_path path s) as [[rp|e] s1]; simpl in *; subst; [|done].
    by destruct (os_access _ _ _).
Qed.

End PassthroughFacts.

(** *** The further properties at concrete inputs *)

Lemma get_src_path_stays_under_source_root_witness :
  let s := Scenario.mounted Scenario.populated ∅ in
  exists rp,
    get_src_path "/d/./x//y" s = (Ret rp, s) /\
    key_of (real s) rp = ["srv"; "data"; "d"; "x"; "y"]%string.
Proof.
  intros s.
  assert (H1 : src_path s <> EmptyString) by discriminate.
  assert (H2 : startswith_sep "d/./x//y" = false) by reflexivity.
  assert (H3 : pardir ∉ split_sep "d/./x//y").
  { change (split_sep "d/./x//y") with ["d"; "."; "x"; ""; "y"]%string.
    intros H. repeat (apply elem_of_cons in H as [H|H]; [discriminate H|]).
    by apply elem_of_nil in H. }
  destruct (get_src_path_stays_under_source_root s "d/./x//y" H1 H2 H3)
    as (rp & Hrp & Hk).
  exists rp. split; [exact Hrp | exact Hk].
Defined.

Lemma get_src_path_second_slash_leaves_source_witness :
  let s := Scenario.mounted Scenario.populated ∅ in
  get_src_path "//srv" s = (Ret "/srv"%string, s) /\
  (lstat_src "//srv" s).1 = Ret (Scenario.a_stat Scenario.S_IFDIR_755).
Proof.
  intros s.
  destruct (get_src_path_second_slash_leaves_source s "/srv" eq_refl) as [H1 H2].
  split; [exact H1|]. etransitivity; [exact H2|]. vm_compute. reflexivity.
Defined.


Lemma chmod_chown_commute_on_record_witness :
  let s := Scenario.mounted Scenario.populated Scenario.overrides in
  permissions s !! "/a"%string = Some {| uid := 42; gid := 42; mode := 384 |} /\
  chown "/a" 7 8 (chmod "/a" 420 s).2 = chmod "/a" 420 (chown "/a" 7 8 s).2.
Proof.
  intros s.
  assert (E : permissions s !! "/a"%string
              = Some {| uid := 42; gid := 42; mode := 384 |})
    by (vm_compute; reflexivity).
  split; [exact E|].
  destruct (chmod_chown_commute_on_record "/a" 420 7 8 s _ E) as [H1 H2].
  rewrite H1, H2. reflexivity.
Defined.

Lemma other_records_untouched_witness :
  let s := Scenario.mounted Scenario.populated Scenario.overrides in
  "/"%string <> "/a"%string /\
  permissions (chmod "/a" 420 s).2 !! "/"%string = permissions s !! "/"%string /\
  permissions (chown "/a" 7 8 s).2 !! "/"%string = permissions s !! "/"%string.
Proof.
  intros s.
  assert (H : "/"%string <> "/a"%string) by discriminate.
  split; [exact H|].
  destruct (other_records_untouched "/a" "/" 420 7 8 s H) as (H1 & H2 & _).
  split; [exact H1 | exact H2].
Defined.

Lemma getattr_reports_overrides_witness :
  let s := Scenario.mounted Scenario.populated ∅ in
  (lstat_src "/a" s).1 = Ret (Scenario.a_stat Scenario.S_IFREG_644) /\
  (exists r, getattr "/a" (chmod "/a" 384 s).2
               = (Ret (attrs r (Scenario.a_stat Scenario.S_IFREG_644)),
                  (chmod "/a" 384 s).2) /\ mode r = 384) /\
  (exists r, getattr "/a" (chown "/a" 42 43 s).2
               = (Ret (attrs r (Scenario.a_stat Scenario.S_IFREG_644)),
                  (chown "/a" 42 43 s).2) /\ uid r = 42 /\ gid r = 43).
Proof.
  intros s.
  assert (L : (lstat_src "/a" s).1 = Ret (Scenario.a_stat Scenario.S_IFREG_644))
    by reflexivity.
  split; [exact L|].
  exact (getattr_reports_overrides "/a" 384 42 43 s _ L).
Defined.

Lemma chmod_on_missing_file_breaks_destroy_witness :
  let s := Scenario.mounted Scenario.populated ∅ in
  let s' := (chmod "/ghost" 384 s).2 in
  (lstat_src "/ghost" s).1 = Raise FileNotFoundError /\
  permissions s !! EmptyString = None /\
  destroy JsonText.dumps Scenario.written s' = (Raise FileNotFoundError, s').
Proof.
  intros s s'.
  assert (L : (lstat_src "/ghost" s).1 = Raise FileNotFoundError)
    by (vm_compute; reflexivity).
  assert (K : permissions s !! EmptyString = None) by reflexivity.
  split; [exact L|]. split; [exact K|].
  exact (proj2 (chmod_on_missing_file_breaks_destroy
                  JsonText.dumps Scenario.written "/ghost" 384 s L K)).
Defined.

Lemma unlink_leaves_record_behind_witness :
  unlink "/a" Cases.looked_up = (Ret tt, Scenario.after_unlink) /\
  permissions Cases.looked_up !! "/a"%string
    = Some {| uid := 0; gid := 0; mode := Scenario.S_IFREG_644 |} /\
  permissions Cases.looked_up !! EmptyString = None /\
  permissions Scenario.after_unlink = permissions Cases.looked_up /\
  getattr "/a" Scenario.after_unlink
    = (Raise FileNotFoundError, Scenario.after_unlink) /\
  destroy JsonText.dumps Scenario.written Scenario.after_unlink
    = (Raise FileNotFoundError, Scenario.after_unlink).
Proof.
  assert (U : unlink "/a" Cases.looked_up = (Ret tt, Scenario.after_unlink))
    by (vm_compute; reflexivity).
  assert (E : permissions Cases.looked_up !! "/a"%string
              = Some {| uid := 0; gid := 0; mode := Scenario.S_IFREG_644 |})
    by (vm_compute; reflexivity).
  assert (K : permissions Cases.looked_up !! EmptyString = None)
    by (vm_compute; reflexivity).
  split; [exact U|]. split; [exact E|]. split; [exact K|].
  destruct (unlink_leaves_record_behind JsonText.dumps Scenario.written
              "/a" _ _ U) as (H1 & H2 & H3).
  split; [exact H1|]. split; [exact H2|]. exact (H3 _ E K).
Defined.

Lemma recreated_file_inherits_record_witness :
  let s2 := set_real Scenario.after_unlink Cases.changed in
  unlink "/a" Cases.looked_up = (Ret tt, Scenario.after_unlink) /\
  (lstat_src "/a" s2).1 = Ret (Scenario.a_stat 33152) /\
  (exists a, getattr "/a" s2 = (Ret a, s2) /\
             st_mode a = Scenario.S_IFREG_644 /\ st_uid a = 0).
Proof.
  intros s2.
  assert (U : unlink "/a" Cases.looked_up = (Ret tt, Scenario.after_unlink))
    by (vm_compute; reflexivity).
  assert (E : permissions Cases.looked_up !! "/a"%string
              = Some {| uid := 0; gid := 0; mode := Scenario.S_IFREG_644 |})
    by (vm_compute; reflexivity).
  assert (L : (lstat_src "/a" s2).1 = Ret (Scenario.a_stat 33152))
    by (vm_compute; reflexivity).
  split; [exact U|]. split; [exact L|].
  eexists. split.
  - exact (recreated_file_inherits_record "/a" _ _ _ Cases.changed _ U E L).
  - split; reflexivity.
Defined.

Lemma lazy_default_freezes_mode_witness :
  let s := Scenario.mounted Scenario.populated ∅ in
  let s2 := set_real (getattr "/a" s).2 Cases.changed in
  let r := {| uid := 0; gid := 0; mode := Scenario.S_IFREG_644 |} in
  (lstat_src "/a" s2).1 = Ret (Scenario.a_stat 33152) /\
  getattr "/a" s2 = (Ret (attrs r (Scenario.a_stat 33152)), s2) /\
  pruned s2 !! "/a"%string = Some r.
Proof.
  intros s s2 r.
  assert (E : permissions s !! "/a"%string = None) by reflexivity.
  assert (L : (lstat_src "/a" s).1 = Ret (Scenario.a_stat Scenario.S_IFREG_644))
    by reflexivity.
  assert (L2 : (lstat_src "/a" s2).1 = Ret (Scenario.a_stat 33152))
    by (vm_compute; reflexivity).
  assert (Hne : st_mode (Scenario.a_stat 33152)
                <> st_mode (Scenario.a_stat Scenario.S_IFREG_644)) by discriminate.
  split; [exact L2|].
  exact (lazy_default_freezes_mode "/a" s _ _ Cases.changed E L L2 Hne).
Defined.

Lemma destroy_touches_only_the_sidecar_witness :
  let s := Scenario.mounted Scenario.populated Scenario.overlay in
  let s' := (destroy JsonText.dumps Scenario.written s).2 in
  let k := ["srv"; "data"; ".fs_perm_remapper.json"]%string in
  permissions s' = permissions s /\
  disk (real s') !! k <> disk (real s) !! k /\
  snode (real s) (sidecar_path (src_path s)) = Ret (k, disk (real s) !! k).
Proof.
  intros s s' k.
  destruct (destroy_touches_only_the_sidecar JsonText.dumps Scenario.written s)
    as (H1 & _ & _ & H4).
  assert (Hk : disk (real s') !! k <> disk (real s) !! k)
    by (vm_compute; discriminate).
  split; [exact H1|]. split; [exact Hk|]. exact (H4 k Hk).
Defined.

Lemma destroy_twice_same_sidecar_witness :
  let s := Scenario.mounted Scenario.populated Scenario.overlay in
  (forall st data, st_mode (Scenario.written (Some st) data) = st_mode st) /\
  records_resolve s /\
  sidecar_writable (real s) (src_path s) /\
  exists w1 w2,
    destroy JsonText.dumps Scenario.written s = (Ret tt, set_real s w1) /\
    destroy JsonText.dumps Scenario.written (set_real s w1)
      = (Ret tt, set_real s w2) /\
    read_text w1 (sidecar_path (src_path s))
      = read_text w2 (sidecar_path (src_path s)).
Proof.
  intros s.
  assert (Hm : forall st data, st_mode (Scenario.written (Some st) data) = st_mode st)
    by reflexivity.
  assert (Hres : records_resolve s)
    by (apply records_resolve_check; vm_compute; reflexivity).
  assert (Hw : sidecar_writable (real s) (src_path s)).
  { right. split; [|vm_compute; reflexivity].
    exists ["srv"; "data"]%string, (Scenario.a_stat Scenario.S_IFDIR_755).
    vm_compute; reflexivity. }
  split; [exact Hm|]. split; [exact Hres|]. split; [exact Hw|].
  destruct (destroy_twice_same_sidecar JsonText.dumps Scenario.written Hm s Hres Hw)
    as (w1 & w2 & H1 & H2 & R1 & R2).
  exists w1, w2. split; [exact H1|]. split; [exact H2|].
  rewrite R1, R2. reflexivity.
Defined.

Lemma remount_keeps_what_getattr_reports_witness :
  let s := Scenario.mounted Scenario.populated Scenario.overlay in
  let a := attrs {| uid := 0; gid := 0; mode := Scenario.S_IFLNK_777 |}
                 (Scenario.a_stat Scenario.S_IFLNK_777) in
  JsonText.loads (JsonText.dumps (pruned s)) = Some (pruned s) /\
  (getattr "/rel" s).1 = Ret a /\
  permissions s !! "/rel"%string
    = Some {| uid := 0; gid := 0; mode := Scenario.S_IFLNK_777 |} /\
  exists w' s0 a',
    destroy JsonText.dumps Scenario.written s = (Ret tt, set_real s w') /\
    __init__ JsonText.loads w' (src_path s) = Ret s0 /\
    permissions s0 !! "/rel"%string = None /\
    (getattr "/rel" s0).1 = Ret a' /\
    st_mode a' = st_mode a /\ st_uid a' = st_uid a /\ st_gid a' = st_gid a.
Proof.
  intros s a.
  assert (Hm : forall st data, st_mode (Scenario.written (Some st) data) = st_mode st)
    by reflexivity.
  assert (Hres : records_resolve s)
    by (apply records_resolve_check; vm_compute; reflexivity).
  assert (Hw : sidecar_writable (real s) (src_path s)).
  { right. split; [|vm_compute; reflexivity].
    exists ["srv"; "data"]%string, (Scenario.a_stat Scenario.S_IFDIR_755).
    vm_compute; reflexivity. }
  assert (Hc : JsonText.loads (JsonText.dumps (pruned s)) = Some (pruned s))
    by (vm_compute; reflexivity).
  assert (Ha : (getattr "/rel" s).1 = Ret a) by (vm_compute; reflexivity).
  split; [exact Hc|]. split; [exact Ha|]. split; [vm_compute; reflexivity|].
  destruct (remount_keeps_what_getattr_reports JsonText.loads JsonText.dumps
              Scenario.written Hm s "/rel" a Hres Hw Hc Ha)
    as (w' & s0 & a' & H1 & H2 & H3 & H4 & H5).
  exists w', s0, a'. split; [exact H1|]. split; [exact H2|].
  split; [rewrite H3; vm_compute; reflexivity|]. split; [exact H4 | exact H5].
Defined.

Lemma readdir_root_filters_sidecar_witness :
  let s := Scenario.mounted Cases.used ∅ in
  real_entries (real s) (join (src_path s) EmptyString)
    = Ret [".fs_perm_remapper.json"; "d"; "a"]%string /\
  readdir "/" s = (Ret ["."; ".."; "d"; "a"]%string, s).
Proof.
  intros s.
  assert (Hn : real_entries (real s) (join (src_path s) EmptyString)
               = Ret [".fs_perm_remapper.json"; "d"; "a"]%string)
    by (vm_compute; reflexivity).
  split; [exact Hn|].
  rewrite (readdir_root_filters_sidecar s _ Hn); [reflexivity|].
  apply elem_of_cons. left. reflexivity.
Defined.

Lemma readdir_of_non_directory_witness :
  let s := Scenario.mounted Scenario.populated ∅ in
  "/a"%string <> "/"%string /\
  path_isdir (real s) "/srv/data/a" = false /\
  path_isdir (real s) "/srv/data/ghost" = false /\
  readdir "/a" s = (Ret ["."; ".."]%string, s) /\
  readdir "/ghost" s = (Ret ["."; ".."]%string, s).
Proof.
  intros s.
  assert (H1 : "/a"%string <> "/"%string) by discriminate.
  assert (H2 : path_isdir (real s) "/srv/data/a" = false) by (vm_compute; reflexivity).
  assert (H3 : path_isdir (real s) "/srv/data/ghost" = false)
    by (vm_compute; reflexivity).
  split; [exact H1|]. split; [exact H2|]. split; [exact H3|]. split.
  - exact (readdir_of_non_directory "/a" "/srv/data/a" s H1 eq_refl H2).
  - apply (readdir_of_non_directory "/ghost" "/srv/data/ghost" s);
      [discriminate | reflexivity | exact H3].
Defined.

Lemma readdir_root_works_after_unmount_witness :
  let s := Scenario.mounted Scenario.populated Scenario.overlay in
  (readdir "/" s).1 = Raise ValueError /\
  exists w' names,
    destroy JsonText.dumps Scenario.written s = (Ret tt, set_real s w') /\
    readdir "/" (set_real s w')
      = (Ret ("." :: ".." :: names)%string, set_real s w') /\
    (REMAPPER_PERM_FILE ∉ names).
Proof.
  intros s.
  assert (Hd : lnode (real s) (src_path s)
               = Ret (["srv"; "data"]%string, Dir (Scenario.a_stat Scenario.S_IFDIR_755)))
    by (vm_compute; reflexivity).
  assert (Hres : records_resolve s)
    by (apply records_resolve_check; vm_compute; reflexivity).
  assert (Hw : sidecar_writable (real s) (src_path s)).
  { right. split; [|vm_compute; reflexivity].
    exists ["srv"; "data"]%string, (Scenario.a_stat Scenario.S_IFDIR_755).
    vm_compute; reflexivity. }
  split; [vm_compute; reflexivity|].
  exact (readdir_root_works_after_unmount JsonText.dumps Scenario.written
           s _ _ Hd Hres Hw).
Defined.

Lemma readlink_inside_source_witness :
  let s := Scenario.mounted Cases.used ∅ in
  os_readlink (real s) "/srv/data/d/in" = Ret "/srv/data/a"%string /\
  key_of (real s) "/srv/data/a" = key_of (real s) (src_path s) ++ ["a"%string] /\
  readlink "/d/in" s = (Ret "a"%string, s).
Proof.
  intros s.
  assert (H1 : os_readlink (real s) "/srv/data/d/in" = Ret "/srv/data/a"%string)
    by (vm_compute; reflexivity).
  assert (H2 : key_of (real s) "/srv/data/a"
               = key_of (real s) (src_path s) ++ ["a"%string])
    by (vm_compute; reflexivity).
  split; [exact H1|]. split; [exact H2|].
  exact (readlink_inside_source s "/d/in" _ _ _ eq_refl H1 eq_refl eq_refl H2).
Defined.

Lemma readlink_outside_source_climbs_witness :
  let s := Scenario.mounted Scenario.populated ∅ in
  os_readlink (real s) "/srv/data/etc" = Ret "/etc/passwd"%string /\
  (forall rest, key_of (real s) "/etc/passwd"
                <> key_of (real s) (src_path s) ++ rest) /\
  exists more, readlink "/etc" s = (Ret (sep_join (pardir :: more)), s).
Proof.
  intros s.
  assert (H1 : os_readlink (real s) "/srv/data/etc" = Ret "/etc/passwd"%string)
    by (vm_compute; reflexivity).
  assert (H2 : forall rest, key_of (real s) "/etc/passwd"
                            <> key_of (real s) (src_path s) ++ rest).
  { intros rest H.
    change (key_of (real s) "/etc/passwd") with ["etc"; "passwd"]%string in H.
    change (key_of (real s) (src_path s)) with ["srv"; "data"]%string in H.
    discriminate H. }
  split; [exact H1|]. split; [exact H2|].
  exact (readlink_outside_source_climbs s "/etc" _ _ eq_refl H1 eq_refl eq_refl H2).
Defined.

Lemma symlink_round_trip_under_absolute_root_witness :
  let s := Scenario.mounted Scenario.populated ∅ in
  symlink Cases.link_stat "/a" "/ln" s = (Done tt, Cases.linked) /\
  (pardir ∉ split_sep "a") /\
  readlink "/ln" Cases.linked = (Ret "a"%string, Cases.linked).
Proof.
  intros s.
  assert (H1 : symlink Cases.link_stat "/a" "/ln" s = (Done tt, Cases.linked))
    by (vm_compute; reflexivity).
  assert (H2 : pardir ∉ split_sep "a").
  { change (split_sep "a") with ["a"%string]. intros H.
    apply elem_of_cons in H as [H|H]; [discriminate H | by apply elem_of_nil in H]. }
  split; [exact H1|]. split; [exact H2|].
  exact (symlink_round_trip_under_absolute_root Cases.link_stat
           "a" "/ln" s _ H1 eq_refl eq_refl eq_refl H2).
Defined.
